(** * create_database.py: the CSV-to-SQLite loader, embedded and verified

    The script is one procedure, [create_football_database], that checks
    that two CSV files exist, reads them with pandas, casts a fixed list of
    columns to [int64], opens an SQLite connection, writes both frames with
    [to_sql(..., if_exists='replace', index=False)], prints a few
    verification queries and closes the connection in a [finally] block.

    The embedding keeps that shape: a state-and-exception monad over the
    state of the world (the database file, the connection, the trace of
    observable actions), pure functions for the pandas operations the
    script calls, and one monadic definition per source statement. *)

From Stdlib Require Import ZArith Lia.
From Stdlib Require Import Floats.SpecFloat.
From stdpp Require Import base option list strings gmap.

Local Open Scope string_scope.
Local Open Scope list_scope.
Local Open Scope Z_scope.

(** ** Exceptions *)

(** A Python exception, of a class derived from [Exception] as the ones
    pandas and sqlite3 raise are: its class and [str(e)]. *)
Record Exn := mkExn { exn_class : string; exn_msg : string }.

Definition FileNotFoundError (msg : string) : Exn := mkExn "FileNotFoundError" msg.
Definition KeyError (key : string) : Exn := mkExn "KeyError" ("'" +:+ key +:+ "'").
Definition ValueError (msg : string) : Exn := mkExn "ValueError" msg.
Definition OverflowError (msg : string) : Exn := mkExn "OverflowError" msg.
Definition IntCastingNaNError : Exn :=
  mkExn "IntCastingNaNError" "Cannot convert non-finite values (NA or inf) to integer".

(** The outcome of a computation that may raise. *)
Inductive res (A : Type) : Type :=
| Ok (a : A)
| Raise (e : Exn).
Arguments Ok {A} a.
Arguments Raise {A} e.

Definition res_bind {A B} (r : res A) (k : A → res B) : res B :=
  match r with
  | Ok a => k a
  | Raise e => Raise e
  end.

Fixpoint res_mapM {A B} (f : A → res B) (l : list A) : res (list B) :=
  match l with
  | [] => Ok []
  | x :: l' =>
      res_bind (f x) (λ y, res_bind (res_mapM f l') (λ ys, Ok (y :: ys)))
  end.

(** ** Frames: the pandas data the script touches *)

(** The dtypes [pd.read_csv] infers for a column. *)
Inductive dtype := Int64 | UInt64 | Float64 | BoolT | ObjectT.

(** A cell.  A missing entry is the float NaN, both in a [float64] column
    and in an [object] column. *)
Inductive cell :=
| CInt (z : Z)
| CFloat (f : spec_float)
| CBool (b : bool)
| CStr (s : string).

Definition isna (c : cell) : bool :=
  match c with
  | CFloat S754_nan => true
  | _ => false
  end.

Definition is_finite (c : cell) : bool :=
  match c with
  | CFloat S754_nan | CFloat (S754_infinity _) => false
  | _ => true
  end.

Record Series := mkSeries { s_dtype : dtype; s_values : list cell }.

(** A frame: the length of its index and its columns in order. *)
Record DataFrame := mkFrame { nrows : nat; columns : list (string * Series) }.

Definition column_names (df : DataFrame) : list string := (columns df).*1.

(** [df.shape] *)
Definition shape (df : DataFrame) : nat * nat := (nrows df, length (columns df)).

(** [df.dtypes] *)
Definition dtypes (df : DataFrame) : list (string * dtype) :=
  (λ c, (c.1, s_dtype c.2)) <$> columns df.

Fixpoint assoc {V} (k : string) (l : list (string * V)) : option V :=
  match l with
  | [] => None
  | (k', v) :: l' => if decide (k' = k) then Some v else assoc k l'
  end.

(** Replace the value at the first occurrence of [k], or append the pair
    when [k] is new. *)
Fixpoint assoc_set {V} (k : string) (v : V) (l : list (string * V)) : list (string * V) :=
  match l with
  | [] => [(k, v)]
  | (k', v') :: l' =>
      if decide (k' = k) then (k', v) :: l' else (k', v') :: assoc_set k v l'
  end.

(** [df[name]]: the column, or [KeyError]. *)
Definition getitem (df : DataFrame) (name : string) : res Series :=
  match assoc name (columns df) with
  | Some s => Ok s
  | None => Raise (KeyError name)
  end.

(** [df[name] = s]: an existing column is replaced where it stands, a new
    label is appended. *)
Definition setitem (df : DataFrame) (name : string) (s : Series) : DataFrame :=
  mkFrame (nrows df) (assoc_set name s (columns df)).

(** *** [astype('int64')] *)

Definition int64_min : Z := - 2 ^ 63.
Definition int64_max : Z := 2 ^ 63 - 1.
Definition in_int64 (z : Z) : bool := (int64_min <=? z) && (z <=? int64_max).

(** Two's complement reduction to 64 bits (the [uint64] to [int64] cast). *)
Definition wrap64 (z : Z) : Z := (z + 2 ^ 63) mod 2 ^ 64 - 2 ^ 63.

(** Truncation toward zero of a finite float [(-1)^s * m * 2^e]. *)
Definition trunc_float (f : spec_float) : Z :=
  match f with
  | S754_finite s m e =>
      let a := Z.shiftl (Z.pos m) e in
      if s then - a else a
  | _ => 0
  end.

(** The parts of a cast that the script does not determine: what Python's
    [int] makes of a string of an [object] column, and what the cast of a
    finite float outside the [int64] range yields on the platform. *)
Record CastEnv := mkCastEnv {
  int_of_str : string → res Z;
  float_out_of_range : spec_float → res Z
}.

Definition cast_cell (ce : CastEnv) (c : cell) : res cell :=
  match c with
  | CInt z => Ok (CInt (wrap64 z))
  | CBool b => Ok (CInt (if b then 1 else 0))
  | CFloat S754_nan => Raise (ValueError "cannot convert float NaN to integer")
  | CFloat (S754_infinity _) =>
      Raise (OverflowError "cannot convert float infinity to integer")
  | CFloat f =>
      let z := trunc_float f in
      if in_int64 z then Ok (CInt z)
      else res_bind (float_out_of_range ce f) (λ z', Ok (CInt (wrap64 z')))
  | CStr s =>
      res_bind (int_of_str ce s) (λ z,
        if in_int64 z then Ok (CInt z)
        else Raise (OverflowError "Python int too large to convert to C long"))
  end.

(** [s.astype('int64')].  A [float64] column is first checked for
    non-finite values as a whole; then every value is cast. *)
Definition astype_int64 (ce : CastEnv) (s : Series) : res Series :=
  match s_dtype s with
  | Float64 =>
      if forallb is_finite (s_values s)
      then res_bind (res_mapM (cast_cell ce) (s_values s)) (λ vs, Ok (mkSeries Int64 vs))
      else Raise IntCastingNaNError
  | _ => res_bind (res_mapM (cast_cell ce) (s_values s)) (λ vs, Ok (mkSeries Int64 vs))
  end.

(** One statement [df[name] = df[name].astype('int64')]. *)
Definition cast_column (ce : CastEnv) (name : string) (df : DataFrame) : res DataFrame :=
  res_bind (getitem df name) (λ s,
  res_bind (astype_int64 ce s) (λ s',
  Ok (setitem df name s'))).

(** The seven casts of the receiving frame (source lines 34 to 42) and the
    two of the roster frame (lines 54 and 55), in source order. *)
Definition coerce_receiving (ce : CastEnv) (df : DataFrame) : res DataFrame :=
  res_bind (cast_column ce "#" df) (λ df,
  res_bind (cast_column ce "GP" df) (λ df,
  res_bind (cast_column ce "NO" df) (λ df,
  res_bind (cast_column ce "YDS" df) (λ df,
  res_bind (cast_column ce "TD" df) (λ df,
  res_bind (cast_column ce "Long" df) (λ df,
  cast_column ce "PlayerID" df)))))).

Definition coerce_roster (ce : CastEnv) (df : DataFrame) : res DataFrame :=
  res_bind (cast_column ce "id" df) (λ df,
  cast_column ce "number" df).

Definition receiving_int_columns : list string :=
  ["#"; "GP"; "NO"; "YDS"; "TD"; "Long"; "PlayerID"].
Definition roster_int_columns : list string := ["id"; "number"].

(** The same casts as a loop over the column list. *)
Fixpoint cast_columns (ce : CastEnv) (names : list string) (df : DataFrame) : res DataFrame :=
  match names with
  | [] => Ok df
  | n :: names' => res_bind (cast_column ce n df) (cast_columns ce names')
  end.

(** ** The store: SQLite tables *)

Inductive sqltype := INTEGER | REAL | TEXT.

Inductive sqlvalue :=
| SqlNull
| SqlInt (z : Z)
| SqlReal (f : spec_float)
| SqlText (s : string).

Record Table := mkTable {
  t_schema : list (string * sqltype);
  t_rows : list (list sqlvalue)
}.

Abbreviation Database := (gmap string Table).

(** The column type [to_sql] derives from a numeric dtype. *)
Definition sql_of_dtype (d : dtype) : sqltype :=
  match d with
  | Int64 | UInt64 | BoolT => INTEGER
  | Float64 => REAL
  | ObjectT => TEXT
  end.

Definition is_str (c : cell) : bool := match c with CStr _ => true | _ => false end.
Definition is_bool (c : cell) : bool := match c with CBool _ => true | _ => false end.
Definition is_int (c : cell) : bool := match c with CInt _ => true | _ => false end.
Definition is_float (c : cell) : bool := match c with CFloat _ => true | _ => false end.

(** For an [object] column [to_sql] looks at the values that are not
    missing: all booleans or all integers give INTEGER, all floats give
    REAL, and strings, a mixture or nothing at all give TEXT. *)
Definition infer_sql_type (vs : list cell) : sqltype :=
  match filter (λ c, isna c = false) vs with
  | [] => TEXT
  | present =>
      if forallb is_bool present then INTEGER
      else if forallb is_int present then INTEGER
      else if forallb is_float present then REAL
      else TEXT
  end.

(** The column type [to_sql] declares for a column. *)
Definition sql_type_of (s : Series) : sqltype :=
  match s_dtype s with
  | ObjectT => infer_sql_type (s_values s)
  | d => sql_of_dtype d
  end.

(** The stored value of a cell of a column whose values are of the kind
    its declared type stands for: a missing entry is stored as NULL, and a
    float zero is stored without its sign. *)
Definition sql_of_cell (c : cell) : sqlvalue :=
  match c with
  | CInt z => SqlInt z
  | CFloat S754_nan => SqlNull
  | CFloat (S754_zero _) => SqlReal (S754_zero false)
  | CFloat f => SqlReal f
  | CBool b => SqlInt (if b then 1 else 0)
  | CStr s => SqlText s
  end.

Definition frame_row (df : DataFrame) (i : nat) : list sqlvalue :=
  (λ c : string * Series, sql_of_cell (default (CFloat S754_nan) (s_values c.2 !! i)))
    <$> columns df.

(** The table [to_sql(..., index=False)] creates from a frame: one SQL
    column per frame column, one row per index entry. *)
Definition table_of_frame (df : DataFrame) : Table :=
  mkTable ((λ c : string * Series, (c.1, sql_type_of c.2)) <$> columns df)
          (frame_row df <$> seq 0 (nrows df)).

Definition sqltype_name (t : sqltype) : string :=
  match t with
  | INTEGER => "INTEGER"
  | REAL => "REAL"
  | TEXT => "TEXT"
  end.

(** The rows of [PRAGMA table_info(t)]:
    [(cid, name, type, notnull, dflt_value, pk)]. *)
Fixpoint table_info_from (cid : Z) (sch : list (string * sqltype)) : list (list sqlvalue) :=
  match sch with
  | [] => []
  | (n, t) :: sch' =>
      [SqlInt cid; SqlText n; SqlText (sqltype_name t); SqlInt 0; SqlNull; SqlInt 0]
        :: table_info_from (cid + 1) sch'
  end.

(** ** The world the script runs in *)

(** What [print] writes: a line made of literal text and formatted values. *)
Inductive frag :=
| FStr (s : string)
| FInt (z : Z)
| FShape (sh : nat * nat)
| FDtypes (ds : list (string * dtype))
| FRow (r : list sqlvalue).

Definition line := list frag.

(** The calls the script makes outside itself, in the order it makes them. *)
Inductive Event :=
| EExists (path : string)
| EReadCsv (path : string)
| EPrint (l : line)
| EConnect (path : string)
| EToSql (name : string)
| EExecute (sql : string)
| EClose.

Inductive ConnState := NoConn | ConnOpen | ConnClosed.

Record World := mkWorld {
  store : option Database;      (* the tables of football_data.db, if the file exists *)
  conn : ConnState;
  trace : list Event
}.

(** Everything the script does not decide: the file system, what pandas
    makes of a file, the cast primitives, and the faults of the store.
    [to_sql_fault name df db] is [Some (e, db')] when the write of [df] to
    table [name] raises [e] and leaves the tables [db'] behind. *)
Record Env := mkEnv {
  path_exists : string → bool;
  read_csv : string → res DataFrame;
  cast_env : CastEnv;
  connect_fault : option Exn;
  to_sql_fault : string → DataFrame → Database → option (Exn * Database);
  execute_fault : string → option Exn
}.

(** State and exceptions. *)
Definition M (A : Type) : Type := World → res A * World.

Definition ret {A} (a : A) : M A := λ w, (Ok a, w).
Definition raise {A} (e : Exn) : M A := λ w, (Raise e, w).
Definition bind {A B} (m : M A) (k : A → M B) : M B := λ w,
  match m w with
  | (Ok a, w') => k a w'
  | (Raise e, w') => (Raise e, w')
  end.
Definition lift {A} (r : res A) : M A := λ w, (r, w).

Declare Scope prog_scope.
Delimit Scope prog_scope with prog.
Bind Scope prog_scope with M.
Notation "x <- m ;; k" := (bind m (λ x, k))
  (at level 100, m at next level, right associativity) : prog_scope.
Notation "m ;; k" := (bind m (λ _, k))
  (at level 100, right associativity) : prog_scope.
Local Open Scope prog_scope.

Definition emit (e : Event) : M unit := λ w,
  (Ok (), mkWorld (store w) (conn w) (trace w ++ [e])).

Definition print (l : line) : M unit := emit (EPrint l).

(** [try: body / except Exception as e: handler e / finally: final] *)
Definition try_except_finally {A} (body : M A) (handler : Exn → M A) (final : M unit) : M A :=
  λ w,
    let '(r1, w1) := body w in
    let '(r2, w2) := match r1 with
                     | Ok a => (Ok a, w1)
                     | Raise e => handler e w1
                     end in
    let '(rf, w3) := final w2 in
    (match rf with Ok _ => r2 | Raise e => Raise e end, w3).

(** [Path(p).exists()] *)
Definition exists_ (env : Env) (p : string) : M bool :=
  emit (EExists p) ;; ret (path_exists env p).

(** [pd.read_csv(p)] *)
Definition pd_read_csv (env : Env) (p : string) : M DataFrame :=
  emit (EReadCsv p) ;; lift (read_csv env p).

(** [sqlite3.connect(p)]: opens the file, creating an empty database when
    there is none. *)
Definition connect (env : Env) (p : string) : M unit :=
  emit (EConnect p) ;;
  match connect_fault env with
  | Some e => raise e
  | None => λ w, (Ok (), mkWorld (Some (default ∅ (store w))) ConnOpen (trace w))
  end.

(** [conn.close()] *)
Definition close : M unit := λ w,
  (Ok (), mkWorld (store w) ConnClosed (trace w ++ [EClose])).

(** The [if_exists] argument of [to_sql]. *)
Inductive IfExists := IfFail | IfReplace | IfAppend.

Definition drop_table (name : string) (db : Database) : Database := delete name db.

Definition create_table (name : string) (df : DataFrame) (db : Database) : Database :=
  <[name := table_of_frame df]> db.

(** What a write without fault makes of the tables: with ['fail'] an
    existing table is an error, with ['replace'] it is dropped and the
    table created again from the frame, with ['append'] the rows of the
    frame are added to it. *)
Definition write_frame (mode : IfExists) (name : string) (df : DataFrame) (db : Database)
  : res Database :=
  match mode with
  | IfReplace => Ok (create_table name df (drop_table name db))
  | IfFail =>
      match db !! name with
      | Some _ => Raise (ValueError ("Table '" +:+ name +:+ "' already exists."))
      | None => Ok (create_table name df db)
      end
  | IfAppend =>
      match db !! name with
      | Some t =>
          Ok (<[name := mkTable (t_schema t) (t_rows t ++ t_rows (table_of_frame df))]> db)
      | None => Ok (create_table name df db)
      end
  end.

(** [df.to_sql(name, conn, if_exists=mode, index=False)].  Returns the
    number of rows written. *)
Definition to_sql (env : Env) (df : DataFrame) (name : string) (mode : IfExists) : M nat :=
  emit (EToSql name) ;;
  λ w,
    let db := default ∅ (store w) in
    match to_sql_fault env name df db with
    | Some (e, db') => (Raise e, mkWorld (Some db') (conn w) (trace w))
    | None =>
        match write_frame mode name df db with
        | Ok db' => (Ok (nrows df), mkWorld (Some db') (conn w) (trace w))
        | Raise e => (Raise e, mkWorld (store w) (conn w) (trace w))
        end
    end.

Definition OperationalError (msg : string) : Exn := mkExn "OperationalError" msg.

(** [cursor.execute(sql)] for the three kinds of query of the script, each
    with the result the following [fetchone] or [fetchall] reads. *)
Definition execute {A} (env : Env) (sql : string) (result : Database → res A) : M A :=
  emit (EExecute sql) ;;
  match execute_fault env sql with
  | Some e => raise e
  | None => λ w, (result (default ∅ (store w)), w)
  end.

Definition no_such_table {A} (name : string) : res A :=
  Raise (OperationalError ("no such table: " +:+ name)).

Definition select_count (env : Env) (name : string) : M Z :=
  execute env ("SELECT COUNT(*) FROM " +:+ name)
    (λ db, match db !! name with
           | Some t => Ok (Z.of_nat (length (t_rows t)))
           | None => no_such_table name
           end).

Definition pragma_table_info (env : Env) (name : string) : M (list (list sqlvalue)) :=
  execute env ("PRAGMA table_info(" +:+ name +:+ ")")
    (λ db, match db !! name with
           | Some t => Ok (table_info_from 0 (t_schema t))
           | None => Ok []
           end).

Definition select_limit3 (env : Env) (name : string) : M (list (list sqlvalue)) :=
  execute env ("SELECT * FROM " +:+ name +:+ " LIMIT 3")
    (λ db, match db !! name with
           | Some t => Ok (take 3 (t_rows t))
           | None => no_such_table name
           end).

(** [for row in rows: print(f"  {row}")] *)
Fixpoint print_rows (rows : list (list sqlvalue)) : M unit :=
  match rows with
  | [] => ret ()
  | r :: rows' => print [FStr "  "; FRow r] ;; print_rows rows'
  end.

(** ** The script *)

Definition db_path : string := "football_data.db".
Definition receiving_csv : string := "Data/receiving.csv".
Definition roster_csv : string := "Data/roster.csv".

Definition nl : string := String (Ascii.ascii_of_nat 10) "".

(** Lines 21 to 24: both existence checks. *)
Definition check_inputs (env : Env) : M unit :=
  found <- exists_ env receiving_csv ;;
  if negb found
  then raise (FileNotFoundError ("CSV file not found: " +:+ receiving_csv))
  else
    found <- exists_ env roster_csv ;;
    if negb found
    then raise (FileNotFoundError ("CSV file not found: " +:+ roster_csv))
    else ret ().

(** Lines 26 to 47: read the receiving file, cast its columns, report. *)
Definition load_receiving (env : Env) : M DataFrame :=
  print [FStr "Reading CSV files..."] ;;
  print [FStr "Processing receiving.csv..."] ;;
  receiving_df <- pd_read_csv env receiving_csv ;;
  receiving_df <- lift (coerce_receiving (cast_env env) receiving_df) ;;
  print [FStr "Receiving data shape: "; FShape (shape receiving_df)] ;;
  print [FStr "Receiving data types:"] ;;
  print [FDtypes (dtypes receiving_df)] ;;
  print [] ;;
  ret receiving_df.

(** Lines 50 to 63: the same for the roster file. *)
Definition load_roster (env : Env) : M DataFrame :=
  print [FStr "Processing roster.csv..."] ;;
  roster_df <- pd_read_csv env roster_csv ;;
  roster_df <- lift (coerce_roster (cast_env env) roster_df) ;;
  print [FStr "Roster data shape: "; FShape (shape roster_df)] ;;
  print [FStr "Roster data types:"] ;;
  print [FDtypes (dtypes roster_df)] ;;
  print [] ;;
  ret roster_df.

(** Lines 70 to 76: both tables are written. *)
Definition write_tables (env : Env) (receiving_df roster_df : DataFrame) : M unit :=
  print [FStr "Creating receiving table..."] ;;
  to_sql env receiving_df "receiving" IfReplace ;;
  print [FStr "Creating roster table..."] ;;
  to_sql env roster_df "roster" IfReplace ;;
  ret ().

(** Lines 78 to 113: the queries that report what was stored.  Taking the
    cursor (line 79) has no effect of its own. *)
Definition verify (env : Env) : M unit :=
  receiving_count <- select_count env "receiving" ;;
  print [FStr "Receiving table created with "; FInt receiving_count; FStr " records"] ;;
  roster_count <- select_count env "roster" ;;
  print [FStr "Roster table created with "; FInt roster_count; FStr " records"] ;;
  print [FStr (nl +:+ "Receiving table schema:")] ;;
  rows <- pragma_table_info env "receiving" ;;
  print_rows rows ;;
  print [FStr (nl +:+ "Roster table schema:")] ;;
  rows <- pragma_table_info env "roster" ;;
  print_rows rows ;;
  print [FStr (nl +:+ "Sample receiving data:")] ;;
  rows <- select_limit3 env "receiving" ;;
  print_rows rows ;;
  print [FStr (nl +:+ "Sample roster data:")] ;;
  rows <- select_limit3 env "roster" ;;
  print_rows rows ;;
  print [FStr (nl +:+ "Database successfully created: "); FStr db_path].

(** Lines 70 to 113: the body of the [try]. *)
Definition write_and_verify (env : Env) (receiving_df roster_df : DataFrame) : M unit :=
  write_tables env receiving_df roster_df ;;
  verify env.

(** Line 116: [print(f"Error creating database: {e}")]. *)
Definition error_line (e : Exn) : line :=
  [FStr "Error creating database: "; FStr (exn_msg e)].

(** Lines 115 to 117: the [except] clause prints and raises again. *)
Definition on_error (e : Exn) : M unit :=
  print (error_line e) ;; raise e.

(** Lines 12 to 119. *)
Definition create_football_database (env : Env) : M unit :=
  check_inputs env ;;
  receiving_df <- load_receiving env ;;
  roster_df <- load_roster env ;;
  print [FStr "Creating SQLite database: "; FStr db_path] ;;
  connect env db_path ;;
  try_except_finally (write_and_verify env receiving_df roster_df) on_error close.

(** A run of the script (line 122) against a database file in state [db]. *)
Definition run (env : Env) (db : option Database) : res unit * World :=
  create_football_database env (mkWorld db NoConn []).

(** ** Sample data *)

Definition ints (l : list Z) : Series := mkSeries Int64 (CInt <$> l).
Definition missing : cell := CFloat S754_nan.

(** The frame [read_csv] makes of the one-row receiving file
    [#=10, GP=8, NO=0, YDS=0, AVG=, TD=0, Long=0, AVG/G=, PlayerID=501]:
    the two empty columns are [float64] columns holding NaN. *)
Definition receiving_sample : DataFrame :=
  mkFrame 1
    [("#", ints [10]); ("GP", ints [8]); ("NO", ints [0]); ("YDS", ints [0]);
     ("AVG", mkSeries Float64 [missing]); ("TD", ints [0]); ("Long", ints [0]);
     ("AVG/G", mkSeries Float64 [missing]); ("PlayerID", ints [501])].

(** 215.5 as a float: 431 * 2^-1. *)
Definition f215_5 : spec_float := S754_finite false 431 (-1).

Definition roster_sample : DataFrame :=
  mkFrame 2
    [("id", ints [501; 502]);
     ("number", ints [10; 88]);
     ("name", mkSeries ObjectT [CStr "A. Smith"; CStr "B. Jones"]);
     ("height", mkSeries ObjectT [CStr "6-4"; CStr "5-11"]);
     ("weight", mkSeries Float64 [CFloat f215_5; missing])].

Definition no_cast_env : CastEnv :=
  mkCastEnv (λ s, Raise (ValueError ("invalid literal for int() with base 10: '" +:+ s +:+ "'")))
            (λ _, Ok int64_min).

(** An environment in which both files are present and nothing fails. *)
Definition sample_env : Env :=
  mkEnv (λ _, true)
        (λ p, if decide (p = receiving_csv) then Ok receiving_sample else Ok roster_sample)
        no_cast_env None (λ _ _ _, None) (λ _, None).

(** The roster frame when the [id] column was written with decimals
    ([501.0], [502.0]) and so read as [float64]. *)
Definition roster_float_ids : DataFrame :=
  mkFrame 2
    [("id", mkSeries Float64 [CFloat (S754_finite false 501 0);
                              CFloat (S754_finite false 251 1)]);
     ("number", ints [10; 88]);
     ("name", mkSeries ObjectT [CStr "A. Smith"; CStr "B. Jones"]);
     ("height", mkSeries ObjectT [CStr "6-4"; CStr "5-11"]);
     ("weight", mkSeries Float64 [CFloat f215_5; missing])].

(** [Data/roster.csv] is absent. *)
Definition env_missing_roster : Env :=
  mkEnv (λ p, bool_decide (p = receiving_csv))
        (read_csv sample_env) no_cast_env None (λ _ _ _, None) (λ _, None).

(** [Data/receiving.csv] is absent. *)
Definition env_missing_receiving : Env :=
  mkEnv (λ p, bool_decide (p = roster_csv))
        (read_csv sample_env) no_cast_env None (λ _ _ _, None) (λ _, None).

(** A receiving frame of two rows whose second row has no [NO] value: the
    column is read as [float64], [3.0] and NaN. *)
Definition receiving_with_gap : DataFrame :=
  mkFrame 2
    [("#", ints [10; 11]); ("GP", ints [8; 7]);
     ("NO", mkSeries Float64 [CFloat (S754_finite false 3 0); missing]);
     ("YDS", ints [41; 0]);
     ("AVG", mkSeries Float64 [missing; missing]); ("TD", ints [0; 0]);
     ("Long", ints [20; 0]);
     ("AVG/G", mkSeries Float64 [missing; missing]); ("PlayerID", ints [501; 502])].

Definition env_gap : Env :=
  mkEnv (λ _, true)
        (λ p, if decide (p = receiving_csv) then Ok receiving_with_gap else Ok roster_sample)
        no_cast_env None (λ _ _ _, None) (λ _, None).

(** The write of the roster table fails and leaves the tables as they were. *)
Definition env_write_fault : Env :=
  mkEnv (λ _, true) (read_csv sample_env) no_cast_env None
        (λ name _ db,
           if decide (name = "roster")
           then Some (OperationalError "database is locked", db)
           else None)
        (λ _, None).

(** A database that already has a [receiving] table, of another schema and
    with three rows. *)
Definition old_db : Database :=
  {[ "receiving" := mkTable [("player", TEXT); ("yards", REAL)]
                      [[SqlText "a"; SqlNull]; [SqlText "b"; SqlNull]; [SqlText "c"; SqlNull]] ]}.

(** ** Vocabulary of the properties *)

(** A whole number in the [int64] range. *)
Definition is_whole (c : cell) : bool :=
  match c with
  | CInt z => in_int64 z
  | _ => false
  end.

(** An [int64] column: only whole numbers, so no missing entry. *)
Definition int_series (s : Series) : Prop :=
  s_dtype s = Int64 ∧ Forall (λ c, is_whole c = true ∧ isna c = false) (s_values s).

(** Some column among [names] has a missing entry. *)
Definition has_missing (names : list string) (df : DataFrame) : bool :=
  existsb (λ n, match assoc n (columns df) with
                | Some s => existsb isna (s_values s)
                | None => false
                end) names.

Definition column_lengths (df : DataFrame) : list nat :=
  (λ c : string * Series, length (s_values c.2)) <$> columns df.

(** Lines 30 to 55 without the printing: both frames, read and cast. *)
Definition load_frames (env : Env) : res (DataFrame * DataFrame) :=
  res_bind (read_csv env receiving_csv) (λ r0,
  res_bind (coerce_receiving (cast_env env) r0) (λ r,
  res_bind (read_csv env roster_csv) (λ s0,
  res_bind (coerce_roster (cast_env env) s0) (λ s,
  Ok (r, s))))).

(** The events of a run up to each point where it can stop before the
    [try] block. *)
Definition events_checked : list Event :=
  [EExists receiving_csv; EExists roster_csv].

Definition events_receiving_read : list Event :=
  events_checked ++
  [EPrint [FStr "Reading CSV files..."];
   EPrint [FStr "Processing receiving.csv..."];
   EReadCsv receiving_csv].

Definition events_roster_read (r : DataFrame) : list Event :=
  events_receiving_read ++
  [EPrint [FStr "Receiving data shape: "; FShape (shape r)];
   EPrint [FStr "Receiving data types:"];
   EPrint [FDtypes (dtypes r)];
   EPrint [];
   EPrint [FStr "Processing roster.csv..."];
   EReadCsv roster_csv].

Definition events_loaded (r s : DataFrame) : list Event :=
  events_roster_read r ++
  [EPrint [FStr "Roster data shape: "; FShape (shape s)];
   EPrint [FStr "Roster data types:"];
   EPrint [FDtypes (dtypes s)];
   EPrint [];
   EPrint [FStr "Creating SQLite database: "; FStr db_path]].

Definition events_connect (r s : DataFrame) : list Event :=
  events_loaded r s ++ [EConnect db_path].

(** The tables after both writes. *)
Definition stored (r s : DataFrame) (db : option Database) : Database :=
  <["roster" := table_of_frame s]> (<["receiving" := table_of_frame r]> (default ∅ db)).

(** The run printed a line that carries the message of the error. *)
Definition reports_failure (e : Exn) (w : World) : Prop :=
  ∃ l, EPrint l ∈ trace w ∧ FStr (exn_msg e) ∈ l.

(** A computation that leaves the tables and the connection as they are
    and only adds events. *)
Definition keeps {A} (m : M A) : Prop :=
  ∀ w, store (m w).2 = store w ∧ conn (m w).2 = conn w
       ∧ ∃ t, trace (m w).2 = trace w ++ t.

(** ** Vocabulary of the further properties *)

(** The six statements of the verification, in the order of the script. *)
Definition queries : list string :=
  ["SELECT COUNT(*) FROM receiving"; "SELECT COUNT(*) FROM roster";
   "PRAGMA table_info(receiving)"; "PRAGMA table_info(roster)";
   "SELECT * FROM receiving LIMIT 3"; "SELECT * FROM roster LIMIT 3"].

(** The lines of [for row in rows: print(f"  {row}")]. *)
Definition row_lines (rows : list (list sqlvalue)) : list Event :=
  (λ r, EPrint [FStr "  "; FRow r]) <$> rows.

(** The events of lines 70 to 76 when both writes succeed. *)
Definition write_events : list Event :=
  [EPrint [FStr "Creating receiving table..."]; EToSql "receiving";
   EPrint [FStr "Creating roster table..."]; EToSql "roster"].

(** The events of lines 78 to 113 when no query fails, over the stored
    tables [tr] (receiving) and [ts] (roster). *)
Definition verify_events (tr ts : Table) : list Event :=
  [EExecute "SELECT COUNT(*) FROM receiving";
   EPrint [FStr "Receiving table created with ";
           FInt (Z.of_nat (length (t_rows tr))); FStr " records"];
   EExecute "SELECT COUNT(*) FROM roster";
   EPrint [FStr "Roster table created with ";
           FInt (Z.of_nat (length (t_rows ts))); FStr " records"];
   EPrint [FStr (nl +:+ "Receiving table schema:")];
   EExecute "PRAGMA table_info(receiving)"]
  ++ row_lines (table_info_from 0 (t_schema tr))
  ++ [EPrint [FStr (nl +:+ "Roster table schema:")];
      EExecute "PRAGMA table_info(roster)"]
  ++ row_lines (table_info_from 0 (t_schema ts))
  ++ [EPrint [FStr (nl +:+ "Sample receiving data:")];
      EExecute "SELECT * FROM receiving LIMIT 3"]
  ++ row_lines (take 3 (t_rows tr))
  ++ [EPrint [FStr (nl +:+ "Sample roster data:")];
      EExecute "SELECT * FROM roster LIMIT 3"]
  ++ row_lines (take 3 (t_rows ts))
  ++ [EPrint [FStr (nl +:+ "Database successfully created: "); FStr db_path]].

(** The calls a run may make: the two input paths, the one database path,
    the two table names, the six queries; printing is free. *)
Definition allowed (ev : Event) : Prop :=
  match ev with
  | EExists p | EReadCsv p => p = receiving_csv ∨ p = roster_csv
  | EPrint _ => True
  | EConnect p => p = db_path
  | EToSql n => n = "receiving" ∨ n = "roster"
  | EExecute q => q ∈ queries
  | EClose => True
  end.

(** A computation that only adds allowed events. *)
Definition emits_allowed {A} (m : M A) : Prop :=
  ∀ w, ∃ t, trace (m w).2 = trace w ++ t ∧ Forall allowed t.

(** The conditions under which nothing fails: both files are there, both
    frames [r] and [s] are read and cast, the connection opens, both
    writes go through and no query fails. *)
Definition all_goes_well (env : Env) (db : option Database) (r s : DataFrame) : Prop :=
  path_exists env receiving_csv = true
  ∧ path_exists env roster_csv = true
  ∧ load_frames env = Ok (r, s)
  ∧ connect_fault env = None
  ∧ to_sql_fault env "receiving" r (default ∅ db) = None
  ∧ to_sql_fault env "roster" s (<["receiving" := table_of_frame r]> (default ∅ db)) = None
  ∧ ∀ q, q ∈ queries → execute_fault env q = None.

(** The error of the first statement of [qs] that fails, if one does. *)
Fixpoint first_fault (env : Env) (qs : list string) : option Exn :=
  match qs with
  | [] => None
  | q :: qs' =>
      match execute_fault env q with
      | Some e => Some e
      | None => first_fault env qs'
      end
  end.

Definition first_query_fault (env : Env) : option Exn := first_fault env queries.

(** The third query fails: the database is locked by then. *)
Definition env_query_fault : Env :=
  mkEnv (λ _, true) (read_csv sample_env) no_cast_env None (λ _ _ _, None)
        (λ q, if decide (q = "PRAGMA table_info(receiving)")
              then Some (OperationalError "database is locked")
              else None).

(** The write of the receiving table fails at once: the disk is full. *)
Definition env_first_write_fault : Env :=
  mkEnv (λ _, true) (read_csv sample_env) no_cast_env None
        (λ name _ db,
           if decide (name = "receiving")
           then Some (OperationalError "database or disk is full", db)
           else None)
        (λ _, None).

(** Every column of the frame has one value per row, as in any frame
    [read_csv] returns. *)
Definition rectangular (df : DataFrame) : Prop :=
  Forall (λ n, n = nrows df) (column_lengths df).

(** The value of column [c] in row [i] of a table. *)
Definition stored_cell (t : Table) (i : nat) (c : string) : option sqlvalue :=
  t_rows t !! i ≫= λ row, assoc c (zip (t_schema t).*1 row).

(** The receiving file lacks the [TD] column. *)
Definition receiving_without_td : DataFrame :=
  mkFrame 1
    [("#", ints [10]); ("GP", ints [8]); ("NO", ints [0]); ("YDS", ints [0]);
     ("Long", ints [0]); ("PlayerID", ints [501])].

(** ** Vocabulary of the values *)

(** [z] is the float [f] cut toward zero. *)
Definition truncates (f : spec_float) (z : Z) : Prop :=
  match f with
  | S754_zero _ => z = 0
  | S754_finite sg m e =>
      ∃ t, z = (if sg then - t else t)
           ∧ if 0 <=? e then t = Z.pos m * 2 ^ e
             else t * 2 ^ (- e) ≤ Z.pos m < (t + 1) * 2 ^ (- e)
  | _ => False
  end.

(** The float [f] is the whole number [z]. *)
Definition float_equals (f : spec_float) (z : Z) : Prop :=
  match f with
  | S754_zero _ => z = 0
  | S754_finite sg m e =>
      (if sg then - Z.pos m else Z.pos m) * 2 ^ Z.max e 0 = z * 2 ^ Z.max (- e) 0
  | _ => False
  end.




(** A column as [read_csv] types it: integers of the [int64] range in an
    integer column, floats in a [float64] column, booleans in a [bool]
    column, and in an [object] column strings or booleans, with NaN where
    an entry is missing. *)
Definition plain_column (s : Series) : bool :=
  match s_dtype s with
  | Int64 | UInt64 =>
      forallb (λ c, match c with CInt z => in_int64 z | _ => false end) (s_values s)
  | Float64 => forallb is_float (s_values s)
  | BoolT => forallb is_bool (s_values s)
  | ObjectT =>
      forallb (λ c, is_str c || isna c) (s_values s)
      || forallb (λ c, is_bool c || isna c) (s_values s)
  end.

(** How SQLite holds a value of a plain column: an integer as that
    integer, text as that text, a boolean as 0 or 1, a missing entry as
    NULL, a float as that float, a zero without its sign. *)
Inductive stored_as : cell → sqlvalue → Prop :=
| stored_int z : in_int64 z = true → stored_as (CInt z) (SqlInt z)
| stored_text s : stored_as (CStr s) (SqlText s)
| stored_bool b : stored_as (CBool b) (SqlInt (if b then 1 else 0))
| stored_missing : stored_as (CFloat S754_nan) SqlNull
| stored_zero sg : stored_as (CFloat (S754_zero sg)) (SqlReal (S754_zero false))
| stored_finite sg m e :
    stored_as (CFloat (S754_finite sg m e)) (SqlReal (S754_finite sg m e))
| stored_infinity sg :
    stored_as (CFloat (S754_infinity sg)) (SqlReal (S754_infinity sg)).

(** The table holds the frame and nothing else: the columns of the frame
    by name and in order, one row per row of the frame, one value per
    column in every row, and in row [i] under column [c] the value of the
    frame there, for every plain column. *)
Definition holds_frame (t : Table) (df : DataFrame) : Prop :=
  (t_schema t).*1 = column_names df
  ∧ length (t_rows t) = nrows df
  ∧ Forall (λ row, length row = length (columns df)) (t_rows t)
  ∧ ∀ i c col cl,
      (i < nrows df)%nat → assoc c (columns df) = Some col → plain_column col = true →
      s_values col !! i = Some cl →
      ∃ v, stored_cell t i c = Some v ∧ stored_as cl v.

(** The type [to_sql] declares for a column, by cases: INTEGER for the
    integer and boolean dtypes, REAL for [float64]; for an [object] column
    TEXT when every entry is a string or missing, INTEGER when every entry
    is a boolean or missing and one is a boolean. *)
Definition declared_type (col : Series) (ty : sqltype) : Prop :=
  match s_dtype col with
  | Int64 | UInt64 | BoolT => ty = INTEGER
  | Float64 => ty = REAL
  | ObjectT =>
      (forallb (λ c, is_str c || isna c) (s_values col) = true → ty = TEXT)
      ∧ (forallb (λ c, is_bool c || isna c) (s_values col) = true →
         existsb is_bool (s_values col) = true → ty = INTEGER)
  end.

(** The error raised before the [try] block, if there is one: a missing
    file, a failed read or cast, a refused connection. *)
Definition early_fault (env : Env) : option Exn :=
  if negb (path_exists env receiving_csv)
  then Some (FileNotFoundError ("CSV file not found: " +:+ receiving_csv))
  else if negb (path_exists env roster_csv)
  then Some (FileNotFoundError ("CSV file not found: " +:+ roster_csv))
  else match load_frames env with
       | Raise e => Some e
       | Ok _ => connect_fault env
       end.

(** The error raised inside the [try] block, if there is one: a failed
    write of the receiving table, else of the roster table, else the first
    failed query. *)
Definition try_fault (env : Env) (db : option Database) (r s : DataFrame) : option Exn :=
  match to_sql_fault env "receiving" r (default ∅ db) with
  | Some (e, _) => Some e
  | None =>
      match to_sql_fault env "roster" s
              (<["receiving" := table_of_frame r]> (default ∅ db)) with
      | Some (e, _) => Some e
      | None => first_query_fault env
      end
  end.


(** * Properties *)

(** ** The sample run *)

Example sample_run_ends_normally :
  let '(res, w) := run sample_env None in
  res = Ok () ∧ conn w = ConnClosed ∧ last (trace w) = Some EClose.
Proof. vm_compute. done. Qed.

Example sample_run_stores_receiving :
  (default ∅ (store (run sample_env (Some old_db)).2)) !! "receiving"
  = Some (mkTable
            [("#", INTEGER); ("GP", INTEGER); ("NO", INTEGER); ("YDS", INTEGER);
             ("AVG", REAL); ("TD", INTEGER); ("Long", INTEGER); ("AVG/G", REAL);
             ("PlayerID", INTEGER)]
            [[SqlInt 10; SqlInt 8; SqlInt 0; SqlInt 0; SqlNull;
              SqlInt 0; SqlInt 0; SqlNull; SqlInt 501]]).
Proof. vm_compute. reflexivity. Qed.

Example missing_roster_trace :
  trace (run env_missing_roster None).2 = [EExists receiving_csv; EExists roster_csv].
Proof. reflexivity. Qed.

Example write_fault_trace_end :
  let '(res, w) := run env_write_fault None in
  res = Raise (OperationalError "database is locked")
  ∧ conn w = ConnClosed
  ∧ drop 21 (trace w)
    = [EPrint [FStr "Error creating database: "; FStr "database is locked"]; EClose].
Proof. vm_compute. done. Qed.

Example cast_truncates :
  cast_cell no_cast_env (CFloat (S754_finite true 7 (-1))) = Ok (CInt (-3)).
Proof. reflexivity. Qed.

(** ** The casts *)

Lemma res_mapM_Forall2 {A B} (f : A → res B) l l' :
  res_mapM f l = Ok l' → Forall2 (λ x y, f x = Ok y) l l'.
Proof.
  revert l'; induction l as [|x l IH]; intros l' H; simpl in H.
  - injection H as <-. constructor.
  - destruct (f x) as [y|] eqn:Hx; simpl in H; [|discriminate].
    destruct (res_mapM f l) as [ys|] eqn:Hl; simpl in H; [|discriminate].
    injection H as <-. constructor; auto.
Qed.

Lemma wrap64_range z : in_int64 (wrap64 z) = true.
Proof.
  unfold in_int64, wrap64, int64_min, int64_max.
  pose proof (Z.mod_pos_bound (z + 2 ^ 63) (2 ^ 64) ltac:(lia)).
  apply andb_true_iff; split; apply Z.leb_le; lia.
Qed.

Lemma cast_cell_Ok ce c c' :
  cast_cell ce c = Ok c' → is_whole c' = true ∧ isna c' = false ∧ isna c = false.
Proof.
  destruct c as [z|f|b|s]; simpl.
  - intros [= <-]. simpl. auto using wrap64_range.
  - destruct f as [sg|sg| |sg m e]; try discriminate.
    + simpl. intros [= <-]. auto.
    + destruct (in_int64 (trunc_float (S754_finite sg m e))) eqn:Hr.
      * intros [= <-]. simpl. auto.
      * destruct (float_out_of_range ce _); simpl; [|discriminate].
        intros [= <-]. simpl. auto using wrap64_range.
  - intros [= <-]. destruct b; simpl; auto.
  - destruct (int_of_str ce s) as [z|]; simpl; [|discriminate].
    destruct (in_int64 z) eqn:Hz; [|discriminate].
    intros [= <-]. simpl. auto.
Qed.

Lemma astype_int64_Ok ce s s' :
  astype_int64 ce s = Ok s' →
  int_series s' ∧ length (s_values s') = length (s_values s) ∧
  existsb isna (s_values s) = false.
Proof.
  intros H.
  assert (∃ vs, res_mapM (cast_cell ce) (s_values s) = Ok vs ∧ s' = mkSeries Int64 vs)
    as (vs & Hvs & ->).
  { unfold astype_int64 in H.
    destruct (s_dtype s); try destruct (forallb _ _); try discriminate;
      destruct (res_mapM _ _) as [vs|]; try discriminate;
      injection H as <-; eauto. }
  apply res_mapM_Forall2 in Hvs. clear H.
  unfold int_series. simpl. generalize dependent (s_values s). intros l Hvs.
  induction Hvs as [|x y l l' Hxy _ (IH1 & IH2 & IH3)]; [by repeat constructor|].
  apply cast_cell_Ok in Hxy as (Hw & Hn & Hx).
  destruct IH1 as [_ IH1]. simpl. rewrite Hx, IH3, IH2.
  repeat split; try done. by constructor.
Qed.

(** ** Columns kept by name *)

Lemma assoc_set_names {V} k (v v0 : V) l :
  assoc k l = Some v0 → (assoc_set k v l).*1 = l.*1.
Proof.
  induction l as [|[k' v'] l IH]; csimpl; [done|].
  destruct (decide (k' = k)); csimpl; [done|]. intros H. by rewrite IH.
Qed.

Lemma assoc_set_eq {V} k (v : V) l : assoc k (assoc_set k v l) = Some v.
Proof.
  induction l as [|[k' v'] l IH]; simpl.
  - by rewrite decide_True.
  - destruct (decide (k' = k)) as [->|Hne]; simpl.
    + by rewrite decide_True.
    + by rewrite decide_False.
Qed.

Lemma assoc_set_ne {V} k k2 (v : V) l :
  k ≠ k2 → assoc k2 (assoc_set k v l) = assoc k2 l.
Proof.
  intros Hne. induction l as [|[k' v'] l IH]; simpl.
  - by rewrite decide_False.
  - destruct (decide (k' = k)) as [->|Hk]; simpl.
    + repeat case_decide; congruence.
    + by rewrite IH.
Qed.

Lemma assoc_set_lengths k (s s0 : Series) l :
  assoc k l = Some s0 → length (s_values s) = length (s_values s0) →
  (λ c : string * Series, length (s_values c.2)) <$> assoc_set k s l
  = (λ c : string * Series, length (s_values c.2)) <$> l.
Proof.
  intros H Hlen. induction l as [|[k' v'] l IH]; csimpl in *; [done|].
  destruct (decide (k' = k)); csimpl.
  - injection H as ->. by rewrite Hlen.
  - by rewrite IH.
Qed.

Lemma cast_column_Ok ce n df df' :
  cast_column ce n df = Ok df' →
  ∃ s s', assoc n (columns df) = Some s ∧ astype_int64 ce s = Ok s'
          ∧ df' = setitem df n s'.
Proof.
  unfold cast_column, getitem.
  destruct (assoc n (columns df)) as [s|]; simpl; [|discriminate].
  destruct (astype_int64 ce s) as [s'|] eqn:Hs; simpl; [|discriminate].
  intros [= <-]. eauto.
Qed.

Lemma has_missing_setitem names df n s s' :
  assoc n (columns df) = Some s → existsb isna (s_values s) = false →
  has_missing names (setitem df n s') = false → has_missing names df = false.
Proof.
  intros Hs Hna. unfold has_missing.
  induction names as [|c names IH]; simpl; [done|].
  intros [Hc Hrest]%orb_false_iff. rewrite IH by done.
  destruct (decide (n = c)) as [<-|Hne].
  - by rewrite Hs, Hna.
  - rewrite assoc_set_ne in Hc by done. by rewrite Hc.
Qed.

(** What a successful loop of casts keeps and what it changes. *)
Lemma cast_columns_Ok ce names : ∀ df df',
  cast_columns ce names df = Ok df' →
  column_names df' = column_names df
  ∧ nrows df' = nrows df
  ∧ column_lengths df' = column_lengths df
  ∧ (∀ c, c ∉ names → assoc c (columns df') = assoc c (columns df))
  ∧ (∀ c, c ∈ names → ∃ s, assoc c (columns df') = Some s ∧ int_series s)
  ∧ has_missing names df = false.
Proof.
  induction names as [|n names IH]; intros df df' H; simpl in H.
  - injection H as <-. repeat split; try done. intros c Hc. by apply elem_of_nil in Hc.
  - destruct (cast_column ce n df) as [df1|] eqn:H1; simpl in H; [|discriminate].
    apply cast_column_Ok in H1 as (s & s' & Hs & Hcast & ->).
    apply astype_int64_Ok in Hcast as (Hint & Hlen & Hna).
    destruct (IH _ _ H) as (Hn & Hr & Hl & Hout & Hin & Hmiss).
    unfold column_names, column_lengths in *. simpl in *.
    repeat split.
    + rewrite Hn. by eapply assoc_set_names.
    + done.
    + rewrite Hl. by eapply assoc_set_lengths.
    + intros c Hc. apply not_elem_of_cons in Hc as [Hc1 Hc2].
      rewrite Hout by done. by apply assoc_set_ne.
    + intros c Hc. destruct (decide (c ∈ names)) as [Hc'|Hc']; [by apply Hin|].
      apply elem_of_cons in Hc as [->|Hc]; [|done].
      rewrite Hout by done. rewrite assoc_set_eq. eauto.
    + rewrite Hs, Hna. simpl. by eapply has_missing_setitem.
Qed.

Lemma coerce_receiving_loop ce df :
  coerce_receiving ce df = cast_columns ce receiving_int_columns df.
Proof.
  unfold coerce_receiving. simpl.
  repeat (destruct (cast_column ce _ _); simpl; try done).
Qed.

Lemma coerce_roster_loop ce df :
  coerce_roster ce df = cast_columns ce roster_int_columns df.
Proof.
  unfold coerce_roster. simpl.
  repeat (destruct (cast_column ce _ _); simpl; try done).
Qed.

(** ** The paths of a run *)

(** The run, path by path: where it stops before the [try] block, and the
    world in which the [try] block starts. *)
Lemma run_paths env db :
  run env db =
  if path_exists env receiving_csv then
    if path_exists env roster_csv then
      match read_csv env receiving_csv with
      | Raise e => (Raise e, mkWorld db NoConn events_receiving_read)
      | Ok r0 =>
          match coerce_receiving (cast_env env) r0 with
          | Raise e => (Raise e, mkWorld db NoConn events_receiving_read)
          | Ok r =>
              match read_csv env roster_csv with
              | Raise e => (Raise e, mkWorld db NoConn (events_roster_read r))
              | Ok s0 =>
                  match coerce_roster (cast_env env) s0 with
                  | Raise e => (Raise e, mkWorld db NoConn (events_roster_read r))
                  | Ok s =>
                      match connect_fault env with
                      | Some e => (Raise e, mkWorld db NoConn (events_connect r s))
                      | None =>
                          try_except_finally (write_and_verify env r s) on_error close
                            (mkWorld (Some (default ∅ db)) ConnOpen (events_connect r s))
                      end
                  end
              end
          end
      end
    else (Raise (FileNotFoundError ("CSV file not found: " +:+ roster_csv)),
          mkWorld db NoConn events_checked)
  else (Raise (FileNotFoundError ("CSV file not found: " +:+ receiving_csv)),
        mkWorld db NoConn [EExists receiving_csv]).
Proof.
  unfold run, create_football_database, check_inputs, load_receiving, load_roster,
    exists_, pd_read_csv, connect, print, emit, bind, ret, raise, lift.
  simpl.
  destruct (path_exists env receiving_csv); simpl; [|done].
  destruct (path_exists env roster_csv); simpl; [|done].
  destruct (read_csv env receiving_csv) as [r0|]; simpl; [|done].
  destruct (coerce_receiving _ r0) as [r|]; simpl; [|done].
  destruct (read_csv env roster_csv) as [s0|]; simpl; [|done].
  destruct (coerce_roster _ s0) as [s|]; simpl; [|done].
  destruct (connect_fault env); simpl; done.
Qed.

(** ** The [try] block *)

Lemma keeps_ret {A} (a : A) : keeps (ret a).
Proof. intros w. simpl. repeat split; try done. exists []. by rewrite app_nil_r. Qed.

Lemma keeps_raise {A} e : keeps (@raise A e).
Proof. intros w. simpl. repeat split; try done. exists []. by rewrite app_nil_r. Qed.

Lemma keeps_emit ev : keeps (emit ev).
Proof. intros w. simpl. repeat split; try done. by exists [ev]. Qed.

Lemma keeps_bind {A B} (m : M A) (k : A → M B) :
  keeps m → (∀ a, keeps (k a)) → keeps (bind m k).
Proof.
  intros Hm Hk w. unfold bind. specialize (Hm w).
  destruct (m w) as [[a|e] w1]; simpl in *; [|done].
  destruct Hm as (Hs & Hc & t & Ht). destruct (Hk a w1) as (Hs' & Hc' & t' & Ht').
  repeat split; try congruence.
  exists (t ++ t'). by rewrite Ht', Ht, app_assoc.
Qed.

Lemma keeps_execute {A} env sql (result : Database → res A) : keeps (execute env sql result).
Proof.
  unfold execute. apply keeps_bind; [apply keeps_emit|]. intros _.
  destruct (execute_fault env sql); [apply keeps_raise|].
  intros w. simpl. repeat split; try done. exists []. by rewrite app_nil_r.
Qed.

Lemma keeps_print_rows rows : keeps (print_rows rows).
Proof.
  induction rows as [|r rows IH]; simpl; [apply keeps_ret|].
  apply keeps_bind; [apply keeps_emit | done].
Qed.

Ltac keeps_steps :=
  repeat first
    [ apply keeps_execute | apply keeps_print_rows | apply keeps_emit
    | apply keeps_ret | apply keeps_raise
    | apply keeps_bind; [ | intros ? ] ].

Lemma keeps_verify env : keeps (verify env).
Proof.
  unfold verify, select_count, pragma_table_info, select_limit3, print.
  keeps_steps.
Qed.

(** A write in ['replace'] mode: dropping the table and creating it again
    leaves, under that name, the table of the frame. *)
Lemma to_sql_replace_run env df name w :
  to_sql env df name IfReplace w =
  match to_sql_fault env name df (default ∅ (store w)) with
  | Some (e, db') => (Raise e, mkWorld (Some db') (conn w) (trace w ++ [EToSql name]))
  | None =>
      (Ok (nrows df),
       mkWorld (Some (<[name := table_of_frame df]> (default ∅ (store w)))) (conn w)
         (trace w ++ [EToSql name]))
  end.
Proof.
  unfold to_sql, bind, emit. cbn [store conn trace].
  destruct (to_sql_fault env name df _) as [[e db']|]; [done|].
  unfold write_frame, create_table, drop_table. by rewrite insert_delete_eq.
Qed.

Lemma write_tables_spec env r s w :
  ∃ res w', write_tables env r s w = (res, w')
    ∧ conn w' = conn w
    ∧ (∃ t, trace w' = trace w ++ t)
    ∧ (res = Ok () → store w' = Some (stored r s (store w))).
Proof.
  unfold write_tables, print, emit, bind, ret. rewrite to_sql_replace_run. simpl.
  destruct (to_sql_fault env "receiving" r _) as [[e db1]|]; simpl.
  { eexists _, _. split; [done|]. simpl. repeat split; [|done].
    eexists. by rewrite <- app_assoc. }
  rewrite to_sql_replace_run. simpl.
  destruct (to_sql_fault env "roster" s _) as [[e db2]|]; simpl.
  { eexists _, _. split; [done|]. simpl. repeat split; [|done].
    eexists. by rewrite <- !app_assoc. }
  eexists _, _. split; [done|]. simpl. repeat split.
  eexists. by rewrite <- !app_assoc.
Qed.

Lemma write_and_verify_spec env r s w :
  ∃ res w', write_and_verify env r s w = (res, w')
    ∧ conn w' = conn w
    ∧ (∃ t, trace w' = trace w ++ t)
    ∧ (res = Ok () → store w' = Some (stored r s (store w))).
Proof.
  unfold write_and_verify, bind.
  destruct (write_tables_spec env r s w) as (res1 & w1 & -> & Hc & (t & Ht) & Hs).
  destruct res1 as [[]|e].
  - destruct (keeps_verify env w1) as (Hs' & Hc' & t' & Ht').
    destruct (verify env w1) as [res w'] eqn:Hv. simpl in *.
    eexists _, _. split; [done|]. repeat split.
    + congruence.
    + exists (t ++ t'). by rewrite Ht', Ht, app_assoc.
    + intros _. rewrite Hs'. by apply Hs.
  - eexists _, _. split; [done|]. repeat split; eauto.
Qed.

(** The [try] block as a whole: the connection is closed whatever the body
    did, an error of the body is printed and raised again, and a body that
    ends normally has written both tables. *)
Lemma try_block_spec env r s w :
  ∃ res w',
    try_except_finally (write_and_verify env r s) on_error close w = (res, w')
    ∧ conn w' = ConnClosed
    ∧ (∃ t, trace w' = trace w ++ t ++ [EClose])
    ∧ (res = Ok () → store w' = Some (stored r s (store w)))
    ∧ (∀ e, res = Raise e →
            ∃ t, trace w' = trace w ++ t ++ [EPrint (error_line e); EClose]).
Proof.
  unfold try_except_finally.
  destruct (write_and_verify_spec env r s w) as (res & w1 & -> & Hc & (t & Ht) & Hs).
  destruct res as [[]|e]; simpl.
  - eexists _, _. split; [done|]. simpl. repeat split.
    + exists t. by rewrite Ht, app_assoc.
    + by apply Hs.
    + discriminate.
  - eexists _, _. split; [done|]. simpl. repeat split.
    + exists (t ++ [EPrint (error_line e)]). rewrite Ht. by rewrite <- !app_assoc.
    + discriminate.
    + intros e' [= <-]. exists t. rewrite Ht. by rewrite <- !app_assoc.
Qed.

(** A run that ends normally has read and cast both frames and has written
    both tables. *)
Lemma run_Ok_inv env db w :
  run env db = (Ok (), w) →
  ∃ r s, load_frames env = Ok (r, s)
         ∧ store w = Some (stored r s db) ∧ conn w = ConnClosed.
Proof.
  rewrite run_paths. unfold load_frames.
  destruct (path_exists env receiving_csv); [|discriminate].
  destruct (path_exists env roster_csv); [|discriminate].
  destruct (read_csv env receiving_csv) as [r0|]; [|discriminate]. simpl.
  destruct (coerce_receiving _ r0) as [r|]; [|discriminate]. simpl.
  destruct (read_csv env roster_csv) as [s0|]; [|discriminate]. simpl.
  destruct (coerce_roster _ s0) as [s|]; [|discriminate]. simpl.
  destruct (connect_fault env); [discriminate|].
  destruct (try_block_spec env r s (mkWorld (Some (default ∅ db)) ConnOpen (events_connect r s)))
    as (res & w' & -> & Hc & _ & Hok & _).
  intros [= -> ->]. exists r, s. repeat split; [by apply Hok | done].
Qed.

Lemma load_frames_Ok env r s :
  load_frames env = Ok (r, s) →
  ∃ r0 s0, read_csv env receiving_csv = Ok r0
           ∧ coerce_receiving (cast_env env) r0 = Ok r
           ∧ read_csv env roster_csv = Ok s0
           ∧ coerce_roster (cast_env env) s0 = Ok s.
Proof.
  unfold load_frames.
  destruct (read_csv env receiving_csv) as [r0|]; [|discriminate]. simpl.
  destruct (coerce_receiving _ r0) as [r'|] eqn:Hr; [|discriminate]. simpl.
  destruct (read_csv env roster_csv) as [s0|]; [|discriminate]. simpl.
  destruct (coerce_roster _ s0) as [s'|] eqn:Hs; [|discriminate]. simpl.
  intros [= -> ->]. by exists r0, s0.
Qed.

Lemma getitem_assoc df df' c :
  assoc c (columns df') = assoc c (columns df) → getitem df' c = getitem df c.
Proof. unfold getitem. by intros ->. Qed.

(** Membership in a list given in full is decided by going through it. *)
Ltac not_in_list :=
  let H := fresh "Hin" in
  intros H;
  unfold events_connect, events_loaded, events_roster_read, events_receiving_read,
    events_checked, error_line in H;
  simpl in H;
  repeat (apply elem_of_cons in H as [H|H]; [discriminate H|]);
  by apply elem_of_nil in H.

(** ** The claims *)

(** C2: if [Data/receiving.csv] or [Data/roster.csv] does not exist, the run
    fails with [FileNotFoundError] whose message names a path that is
    missing (the receiving path when that one is missing), and it fails
    before any [read_csv] call: neither file is parsed. *)
Theorem missing_input_fails_before_parsing env db :
  path_exists env receiving_csv = false ∨ path_exists env roster_csv = false →
  ∃ p w,
    run env db = (Raise (FileNotFoundError ("CSV file not found: " +:+ p)), w)
    ∧ (p = receiving_csv ∨ p = roster_csv)
    ∧ path_exists env p = false
    ∧ (path_exists env receiving_csv = false → p = receiving_csv)
    ∧ (∀ q, EReadCsv q ∉ trace w)
    ∧ store w = db ∧ conn w = NoConn.
Proof.
  intros H. rewrite run_paths.
  destruct (path_exists env receiving_csv) eqn:H1.
  - destruct H as [H|H]; [discriminate|]. rewrite H.
    exists roster_csv. eexists. split; [done|]. simpl.
    repeat split; try done; auto.
    intros q. not_in_list.
  - exists receiving_csv. eexists. split; [done|]. simpl.
    repeat split; try done; auto.
    intros q. not_in_list.
Qed.

Lemma missing_input_fails_before_parsing_witness :
  path_exists env_missing_roster roster_csv = false
  ∧ ∃ p w,
      run env_missing_roster None
      = (Raise (FileNotFoundError ("CSV file not found: " +:+ p)), w)
      ∧ (p = receiving_csv ∨ p = roster_csv)
      ∧ path_exists env_missing_roster p = false
      ∧ (path_exists env_missing_roster receiving_csv = false → p = receiving_csv)
      ∧ (∀ q, EReadCsv q ∉ trace w)
      ∧ store w = None ∧ conn w = NoConn.
Proof.
  split; [reflexivity|].
  apply (missing_input_fails_before_parsing env_missing_roster None).
  right. reflexivity.
Defined.


(** C5: when both files exist and a column of the integer list holds a
    missing value (in the receiving frame, or in the roster frame once the
    receiving frame was cast), the cast raises, the run ends with that very
    error, and nothing was substituted or stored: the connection was never
    opened and the tables are as before. *)
Theorem missing_value_in_int_column_raises env db r0 :
  path_exists env receiving_csv = true →
  path_exists env roster_csv = true →
  read_csv env receiving_csv = Ok r0 →
  has_missing receiving_int_columns r0 = true
  ∨ (∃ r s0, coerce_receiving (cast_env env) r0 = Ok r
             ∧ read_csv env roster_csv = Ok s0
             ∧ has_missing roster_int_columns s0 = true) →
  ∃ e w,
    (coerce_receiving (cast_env env) r0 = Raise e
     ∨ ∃ s0, read_csv env roster_csv = Ok s0 ∧ coerce_roster (cast_env env) s0 = Raise e)
    ∧ run env db = (Raise e, w)
    ∧ store w = db ∧ conn w = NoConn
    ∧ (∀ p, EConnect p ∉ trace w)
    ∧ (∀ n, EToSql n ∉ trace w).
Proof.
  intros H1 H2 Hr0 H. rewrite run_paths, H1, H2, Hr0.
  destruct H as [Hm | (r & s0 & Hr & Hs0 & Hm)].
  - destruct (coerce_receiving (cast_env env) r0) as [r|e] eqn:Hr.
    { rewrite coerce_receiving_loop in Hr.
      apply cast_columns_Ok in Hr as (_ & _ & _ & _ & _ & Hno). congruence. }
    exists e. eexists. split; [by left|]. split; [done|]. simpl.
    repeat split; intros p; not_in_list.
  - rewrite Hr, Hs0.
    destruct (coerce_roster (cast_env env) s0) as [s|e] eqn:Hs.
    { rewrite coerce_roster_loop in Hs.
      apply cast_columns_Ok in Hs as (_ & _ & _ & _ & _ & Hno). congruence. }
    exists e. eexists. split; [right; eauto|]. split; [done|]. simpl.
    repeat split; intros p; not_in_list.
Qed.

Lemma missing_value_in_int_column_raises_witness :
  has_missing receiving_int_columns receiving_with_gap = true
  ∧ ∃ e w,
    (coerce_receiving (cast_env env_gap) receiving_with_gap = Raise e
     ∨ ∃ s0, read_csv env_gap roster_csv = Ok s0
             ∧ coerce_roster (cast_env env_gap) s0 = Raise e)
    ∧ run env_gap (Some old_db) = (Raise e, w)
    ∧ store w = Some old_db ∧ conn w = NoConn
    ∧ (∀ p, EConnect p ∉ trace w)
    ∧ (∀ n, EToSql n ∉ trace w).
Proof.
  split; [reflexivity|].
  apply (missing_value_in_int_column_raises env_gap (Some old_db) receiving_with_gap);
    [reflexivity | reflexivity | reflexivity | left; reflexivity].
Defined.

(** C6: a column that is not in the integer list of its frame is, after a
    successful coerce step, the column that was read: same dtype, same
    values, missing entries included.  In particular the one-row receiving
    frame with empty AVG and AVG/G is cast without error, keeps both
    entries missing, and its stored row has NULL there, not zero. *)
Theorem unmapped_columns_pass_through :
  (∀ ce df df' c,
     (coerce_receiving ce df = Ok df' ∧ c ∉ receiving_int_columns)
     ∨ (coerce_roster ce df = Ok df' ∧ c ∉ roster_int_columns) →
     getitem df' c = getitem df c)
  ∧ (∀ ce, ∃ df',
       coerce_receiving ce receiving_sample = Ok df'
       ∧ getitem df' "AVG" = Ok (mkSeries Float64 [missing])
       ∧ getitem df' "AVG/G" = Ok (mkSeries Float64 [missing])
       ∧ t_rows (table_of_frame df')
         = [[SqlInt 10; SqlInt 8; SqlInt 0; SqlInt 0; SqlNull;
             SqlInt 0; SqlInt 0; SqlNull; SqlInt 501]]).
Proof.
  split.
  - intros ce df df' c. rewrite coerce_receiving_loop, coerce_roster_loop.
    intros [[H Hc]|[H Hc]]; apply cast_columns_Ok in H as (_ & _ & _ & Hout & _);
      by apply getitem_assoc, Hout.
  - intros ce. exists receiving_sample. repeat split; reflexivity.
Qed.

Lemma unmapped_columns_pass_through_witness :
  coerce_roster no_cast_env roster_float_ids = Ok roster_sample
  ∧ ("weight" ∉ roster_int_columns)
  ∧ getitem roster_sample "weight" = getitem roster_float_ids "weight".
Proof.
  split; [reflexivity|]. split; [not_in_list|].
  apply (proj1 unmapped_columns_pass_through no_cast_env roster_float_ids roster_sample "weight").
  right. split; [reflexivity | not_in_list].
Defined.

(** C1, as stated, fails: when [Data/receiving.csv] is missing the run
    raises [FileNotFoundError] having printed nothing at all, and when a
    cast fails it raises having printed only the two progress lines; in
    neither run is there a printed line with the message of the error. *)
Lemma failure_before_try_not_reported :
  (∃ w, run env_missing_receiving None
        = (Raise (FileNotFoundError "CSV file not found: Data/receiving.csv"), w)
        ∧ (∀ l, EPrint l ∉ trace w)
        ∧ ¬ reports_failure (FileNotFoundError "CSV file not found: Data/receiving.csv") w)
  ∧ (∃ w, run env_gap None = (Raise IntCastingNaNError, w)
          ∧ ¬ reports_failure IntCastingNaNError w).
Proof.
  split.
  - eexists. split; [vm_compute; reflexivity|]. simpl.
    assert (∀ l, EPrint l ∉ [EExists "Data/receiving.csv"]) as Hno by (intros l; not_in_list).
    split; [done|]. intros (l & Hl & _). by apply (Hno l).
  - eexists. split; [vm_compute; reflexivity|]. simpl.
    intros (l & Hl & Hf).
    repeat (apply elem_of_cons in Hl as [Hl|Hl];
            [ try discriminate Hl; injection Hl as ->;
              apply list_elem_of_singleton in Hf; discriminate Hf |]).
    by apply elem_of_nil in Hl.
Qed.


Lemma stored_twice r s db : stored r s (Some (stored r s db)) = stored r s db.
Proof.
  unfold stored. simpl. apply map_eq. intros k.
  rewrite !lookup_insert. by repeat case_decide.
Qed.

(** C8: when the script runs to the end twice and the second run reads the
    same two frames as the first, the database after the second run is the
    database after the first: the same tables with the same columns and
    rows. *)
Theorem run_twice_same_store env1 env2 db w1 w2 :
  read_csv env2 receiving_csv = read_csv env1 receiving_csv →
  read_csv env2 roster_csv = read_csv env1 roster_csv →
  cast_env env2 = cast_env env1 →
  run env1 db = (Ok (), w1) →
  run env2 (store w1) = (Ok (), w2) →
  store w2 = store w1
  ∧ ∃ r s, load_frames env1 = Ok (r, s)
           ∧ (default ∅ (store w2)) !! "receiving" = Some (table_of_frame r)
           ∧ (default ∅ (store w2)) !! "roster" = Some (table_of_frame s).
Proof.
  intros Hr Hs Hce H1 H2.
  apply run_Ok_inv in H1 as (r & s & Hl1 & Hs1 & _).
  apply run_Ok_inv in H2 as (r' & s' & Hl2 & Hs2 & _).
  assert (load_frames env2 = load_frames env1) as Heq.
  { unfold load_frames. by rewrite Hr, Hs, Hce. }
  rewrite Heq, Hl1 in Hl2. injection Hl2 as <- <-.
  rewrite Hs2, Hs1, stored_twice. split; [done|].
  exists r, s. split; [done|]. simpl. unfold stored.
  rewrite lookup_insert_ne by done. by rewrite !lookup_insert_eq.
Qed.

Lemma run_twice_same_store_witness :
  ∃ w1 w2,
    run sample_env (Some old_db) = (Ok (), w1)
    ∧ run sample_env (store w1) = (Ok (), w2)
    ∧ store w2 = store w1
    ∧ ∃ r s, load_frames sample_env = Ok (r, s)
             ∧ (default ∅ (store w2)) !! "receiving" = Some (table_of_frame r)
             ∧ (default ∅ (store w2)) !! "roster" = Some (table_of_frame s).
Proof.
  eexists _, _. split; [vm_compute; reflexivity|]. split; [vm_compute; reflexivity|].
  apply (run_twice_same_store sample_env sample_env (Some old_db));
    try reflexivity; vm_compute; reflexivity.
Defined.

(** C9: no run leaves the connection open.  When the connection was
    opened, the run ends with the connection closed and the close is the
    last event, after everything the [try] block did; when the run fails
    there, the error line is printed and the connection closed before the
    error leaves the procedure. *)
Theorem connection_closed_on_every_path env db res w :
  run env db = (res, w) →
  conn w ≠ ConnOpen
  ∧ (connect_fault env = None → EConnect db_path ∈ trace w →
     conn w = ConnClosed
     ∧ (∃ t1 t2, trace w = t1 ++ EConnect db_path :: t2 ++ [EClose]
                 ∧ ∀ p, EConnect p ∉ t1)
     ∧ (∀ e, res = Raise e → ∃ t, trace w = t ++ [EPrint (error_line e); EClose])).
Proof.
  rewrite run_paths.
  destruct (path_exists env receiving_csv);
    [|intros [= <- <-]; split; [done|]; intros _; not_in_list].
  destruct (path_exists env roster_csv);
    [|intros [= <- <-]; split; [done|]; intros _; not_in_list].
  destruct (read_csv env receiving_csv) as [r0|];
    [|intros [= <- <-]; split; [done|]; intros _; not_in_list].
  destruct (coerce_receiving _ r0) as [r|];
    [|intros [= <- <-]; split; [done|]; intros _; not_in_list].
  destruct (read_csv env roster_csv) as [s0|];
    [|intros [= <- <-]; split; [done|]; intros _; not_in_list].
  destruct (coerce_roster _ s0) as [s|];
    [|intros [= <- <-]; split; [done|]; intros _; not_in_list].
  destruct (connect_fault env); [intros [= <- <-]; split; done|].
  destruct (try_block_spec env r s (mkWorld (Some (default ∅ db)) ConnOpen (events_connect r s)))
    as (res' & w' & -> & Hc & (t & Ht) & _ & Herr).
  intros [= -> ->]. rewrite Hc. split; [done|]. intros _ _. split; [done|].
  cbn [trace] in Ht. split.
  - exists (events_loaded r s), t. split.
    + rewrite Ht. unfold events_connect. by rewrite <- app_assoc.
    + intros p. not_in_list.
  - intros e He. destruct (Herr e He) as (t' & Ht').
    eexists. rewrite Ht', app_assoc. reflexivity.
Qed.

Lemma connection_closed_on_every_path_witness :
  ∃ e w, run env_write_fault None = (Raise e, w)
  ∧ conn w ≠ ConnOpen
  ∧ (connect_fault env_write_fault = None → EConnect db_path ∈ trace w →
     conn w = ConnClosed
     ∧ (∃ t1 t2, trace w = t1 ++ EConnect db_path :: t2 ++ [EClose]
                 ∧ ∀ p, EConnect p ∉ t1)
     ∧ (∀ e', (Raise e : res ()) = Raise e' →
              ∃ t, trace w = t ++ [EPrint (error_line e'); EClose])).
Proof.
  eexists _, _. split; [vm_compute; reflexivity|].
  apply (connection_closed_on_every_path env_write_fault None).
  vm_compute. reflexivity.
Defined.

(** C10: the first [connect] of a run comes after both [read_csv] calls,
    and only when both frames were read and cast; when reading or casting
    either frame fails, the run fails (with that error when both files
    exist), with no [connect] made, the connection never opened and the
    tables as they were. *)
Theorem connect_only_after_loading env db res w :
  run env db = (res, w) →
  ((∃ p, EConnect p ∈ trace w) →
   ∃ r s pre post,
     load_frames env = Ok (r, s)
     ∧ trace w = pre ++ EConnect db_path :: post
     ∧ EReadCsv receiving_csv ∈ pre ∧ EReadCsv roster_csv ∈ pre
     ∧ ∀ q, EConnect q ∉ pre)
  ∧ (∀ e, load_frames env = Raise e →
       (∃ e', res = Raise e')
       ∧ (path_exists env receiving_csv = true → path_exists env roster_csv = true →
          res = Raise e)
       ∧ store w = db ∧ conn w = NoConn
       ∧ ∀ p, EConnect p ∉ trace w).
Proof.
  rewrite run_paths. unfold load_frames.
  destruct (path_exists env receiving_csv);
    [|intros [= <- <-]; split; [intros [p Hp]; revert Hp; not_in_list|];
      intros e He; repeat split; eauto; try done; intros p; not_in_list].
  destruct (path_exists env roster_csv);
    [|intros [= <- <-]; split; [intros [p Hp]; revert Hp; not_in_list|];
      intros e He; repeat split; eauto; try done; intros p; not_in_list].
  destruct (read_csv env receiving_csv) as [r0|]; simpl;
    [|intros [= <- <-]; split; [intros [p Hp]; revert Hp; not_in_list|];
      intros e' [= <-]; repeat split; eauto; intros p; not_in_list].
  destruct (coerce_receiving _ r0) as [r|]; simpl;
    [|intros [= <- <-]; split; [intros [p Hp]; revert Hp; not_in_list|];
      intros e' [= <-]; repeat split; eauto; intros p; not_in_list].
  destruct (read_csv env roster_csv) as [s0|]; simpl;
    [|intros [= <- <-]; split; [intros [p Hp]; revert Hp; not_in_list|];
      intros e' [= <-]; repeat split; eauto; intros p; not_in_list].
  destruct (coerce_roster _ s0) as [s|]; simpl;
    [|intros [= <- <-]; split; [intros [p Hp]; revert Hp; not_in_list|];
      intros e' [= <-]; repeat split; eauto; intros p; not_in_list].
  intros Hrun. split; [|discriminate]. intros _.
  assert (∃ post, trace w = events_connect r s ++ post) as [post Hpost].
  { destruct (connect_fault env).
    - injection Hrun as <- <-. exists []. by rewrite app_nil_r.
    - destruct (try_block_spec env r s
                  (mkWorld (Some (default ∅ db)) ConnOpen (events_connect r s)))
        as (res' & w' & Heq & _ & (t & Ht) & _).
      rewrite Heq in Hrun. injection Hrun as <- <-. eauto. }
  exists r, s, (events_loaded r s), post. split; [done|]. split.
  { rewrite Hpost. unfold events_connect. by rewrite <- app_assoc. }
  split; [|split].
  - unfold events_loaded, events_roster_read, events_receiving_read, events_checked.
    simpl. do 4 apply list_elem_of_further. apply list_elem_of_here.
  - unfold events_loaded, events_roster_read, events_receiving_read, events_checked.
    simpl. do 10 apply list_elem_of_further. apply list_elem_of_here.
  - intros q. not_in_list.
Qed.

Lemma connect_only_after_loading_witness :
  ∃ w, run env_gap (Some old_db) = (Raise IntCastingNaNError, w)
  ∧ load_frames env_gap = Raise IntCastingNaNError
  ∧ store w = Some old_db ∧ conn w = NoConn
  ∧ ∀ p, EConnect p ∉ trace w.
Proof.
  eexists. split; [vm_compute; reflexivity|]. split; [reflexivity|].
  apply (proj2 (connect_only_after_loading env_gap (Some old_db) _ _ eq_refl)
           IntCastingNaNError eq_refl).
Defined.

(** * Further properties *)

(** ** The verification, step by step *)

Lemma print_rows_run rows : ∀ w,
  print_rows rows w = (Ok (), mkWorld (store w) (conn w) (trace w ++ row_lines rows)).
Proof.
  induction rows as [|r rows IH]; intros w; simpl.
  - destruct w. unfold ret. simpl. by rewrite app_nil_r.
  - unfold bind, print, emit. rewrite IH. simpl. by rewrite <- app_assoc.
Qed.

(** Appends of string literals are computed. *)
Ltac eval_appends :=
  repeat match goal with
         | |- context [?a +:+ ?b] =>
             let v := eval vm_compute in (a +:+ b) in
             change (a +:+ b) with v
         end.

(** The verification on a database that has both tables: either no query
    fails and it prints the counts, the schemas and the samples, or it
    stops with the error of the first query that fails.  In both cases
    the tables and the connection are as before. *)
Lemma verify_run env w tr ts :
  default ∅ (store w) !! "receiving" = Some tr →
  default ∅ (store w) !! "roster" = Some ts →
  match first_query_fault env with
  | None =>
      (∀ q, q ∈ queries → execute_fault env q = None)
      ∧ verify env w
        = (Ok (), mkWorld (store w) (conn w) (trace w ++ verify_events tr ts))
  | Some e =>
      (∃ q, q ∈ queries ∧ execute_fault env q = Some e)
      ∧ ∃ w', verify env w = (Raise e, w')
  end.
Proof.
  intros Hr Hs.
  unfold first_query_fault, queries, verify, select_count, pragma_table_info,
    select_limit3, execute, print, emit, bind, ret, raise.
  eval_appends. simpl.
  destruct (execute_fault env "SELECT COUNT(*) FROM receiving") as [e|] eqn:H1; simpl.
  { split; [|eauto]. eexists. split; [|done]. set_solver. }
  rewrite Hr. simpl.
  destruct (execute_fault env "SELECT COUNT(*) FROM roster") as [e|] eqn:H2; simpl.
  { split; [|eauto]. eexists. split; [|done]. set_solver. }
  rewrite Hs. simpl.
  destruct (execute_fault env "PRAGMA table_info(receiving)") as [e|] eqn:H3; simpl.
  { split; [|eauto]. eexists. split; [|done]. set_solver. }
  rewrite Hr. simpl. rewrite print_rows_run. simpl.
  destruct (execute_fault env "PRAGMA table_info(roster)") as [e|] eqn:H4; simpl.
  { split; [|eauto]. eexists. split; [|done]. set_solver. }
  rewrite Hs. simpl. rewrite print_rows_run. simpl.
  destruct (execute_fault env "SELECT * FROM receiving LIMIT 3") as [e|] eqn:H5; simpl.
  { split; [|eauto]. eexists. split; [|done]. set_solver. }
  rewrite Hr. simpl. rewrite print_rows_run. simpl.
  destruct (execute_fault env "SELECT * FROM roster LIMIT 3") as [e|] eqn:H6; simpl.
  { split; [|eauto]. eexists. split; [|done]. set_solver. }
  rewrite Hs. simpl. rewrite print_rows_run. simpl.
  split.
  - intros q Hq.
    repeat (apply elem_of_cons in Hq as [->|Hq]; [done|]).
    by apply elem_of_nil in Hq.
  - do 2 f_equal. unfold verify_events. rewrite <- !app_assoc. simpl.
    repeat (rewrite <- !app_assoc; simpl). reflexivity.
Qed.

(** ** The writes and the [try] block, path by path *)

Lemma write_tables_run env r s w :
  write_tables env r s w =
  match to_sql_fault env "receiving" r (default ∅ (store w)) with
  | Some (e, db') =>
      (Raise e,
       mkWorld (Some db') (conn w)
         (trace w ++ [EPrint [FStr "Creating receiving table..."]; EToSql "receiving"]))
  | None =>
      match to_sql_fault env "roster" s
              (<["receiving" := table_of_frame r]> (default ∅ (store w))) with
      | Some (e, db') => (Raise e, mkWorld (Some db') (conn w) (trace w ++ write_events))
      | None =>
          (Ok (), mkWorld (Some (stored r s (store w))) (conn w) (trace w ++ write_events))
      end
  end.
Proof.
  unfold write_tables, print, emit, bind, ret. rewrite to_sql_replace_run. simpl.
  destruct (to_sql_fault env "receiving" r _) as [[e db1]|]; simpl.
  { by rewrite <- app_assoc. }
  rewrite to_sql_replace_run. simpl.
  destruct (to_sql_fault env "roster" s _) as [[e db2]|]; simpl;
    by rewrite <- !app_assoc.
Qed.

(** A run that gets as far as the connection continues with the [try]
    block, in a world where the database exists and the connection is open. *)
Lemma run_connected env db r s :
  path_exists env receiving_csv = true →
  path_exists env roster_csv = true →
  load_frames env = Ok (r, s) →
  connect_fault env = None →
  run env db
  = try_except_finally (write_and_verify env r s) on_error close
      (mkWorld (Some (default ∅ db)) ConnOpen (events_connect r s)).
Proof.
  intros H1 H2 Hl Hc. rewrite run_paths, H1, H2.
  apply load_frames_Ok in Hl as (r0 & s0 & -> & -> & -> & ->). by rewrite Hc.
Qed.

Lemma stored_lookup_receiving r s db :
  stored r s db !! "receiving" = Some (table_of_frame r).
Proof. unfold stored. rewrite lookup_insert_ne by done. by rewrite lookup_insert_eq. Qed.

Lemma stored_lookup_roster r s db :
  stored r s db !! "roster" = Some (table_of_frame s).
Proof. unfold stored. by rewrite lookup_insert_eq. Qed.

(** The run in which nothing fails, in full. *)
Lemma run_all_goes_well env db r s :
  all_goes_well env db r s →
  run env db
  = (Ok (),
     mkWorld (Some (stored r s db)) ConnClosed
       (events_connect r s ++ write_events
        ++ verify_events (table_of_frame r) (table_of_frame s) ++ [EClose])).
Proof.
  intros (H1 & H2 & Hl & Hc & Hw1 & Hw2 & Hq).
  rewrite (run_connected env db r s) by done.
  unfold try_except_finally, write_and_verify, bind.
  rewrite write_tables_run. cbn [store conn trace default from_option id].
  rewrite Hw1, Hw2.
  pose proof (verify_run env
    (mkWorld (Some (stored r s (Some (default ∅ db)))) ConnOpen
             (events_connect r s ++ write_events))
    (table_of_frame r) (table_of_frame s)
    (stored_lookup_receiving _ _ _) (stored_lookup_roster _ _ _)) as Hv.
  destruct (first_query_fault env) as [e|] eqn:Hf.
  - destruct Hv as [(q & Hin & Hq') _]. rewrite (Hq q Hin) in Hq'. discriminate.
  - destruct Hv as [_ ->]. unfold close. cbn [store conn trace default from_option id].
    by rewrite <- !app_assoc.
Qed.

(** The [try] block on every path: a failed write, a failed query, or
    none.  [w] is the world right after the connection was opened. *)
Lemma try_block_paths env r s w :
  match to_sql_fault env "receiving" r (default ∅ (store w)) with
  | Some (e, db') =>
      try_except_finally (write_and_verify env r s) on_error close w
      = (Raise e,
         mkWorld (Some db') ConnClosed
           (trace w ++ [EPrint [FStr "Creating receiving table..."]; EToSql "receiving";
                        EPrint (error_line e); EClose]))
  | None =>
      match to_sql_fault env "roster" s
              (<["receiving" := table_of_frame r]> (default ∅ (store w))) with
      | Some (e, db') =>
          try_except_finally (write_and_verify env r s) on_error close w
          = (Raise e,
             mkWorld (Some db') ConnClosed
               (trace w ++ write_events ++ [EPrint (error_line e); EClose]))
      | None =>
          match first_query_fault env with
          | Some e =>
              (∃ q, q ∈ queries ∧ execute_fault env q = Some e)
              ∧ ∃ t,
                  try_except_finally (write_and_verify env r s) on_error close w
                  = (Raise e,
                     mkWorld (Some (stored r s (store w))) ConnClosed
                       (trace w ++ write_events ++ t ++ [EPrint (error_line e); EClose]))
          | None =>
              (∀ q, q ∈ queries → execute_fault env q = None)
              ∧ try_except_finally (write_and_verify env r s) on_error close w
                = (Ok (),
                   mkWorld (Some (stored r s (store w))) ConnClosed
                     (trace w ++ write_events
                      ++ verify_events (table_of_frame r) (table_of_frame s) ++ [EClose]))
          end
      end
  end.
Proof.
  unfold try_except_finally, write_and_verify, bind. rewrite write_tables_run.
  destruct (to_sql_fault env "receiving" r _) as [[e db1]|].
  { unfold on_error, close, bind, print, emit, raise.
    cbn [store conn trace]. rewrite <- ?app_assoc; reflexivity. }
  destruct (to_sql_fault env "roster" s _) as [[e db2]|].
  { unfold on_error, close, bind, print, emit, raise.
    cbn [store conn trace]. rewrite <- ?app_assoc; reflexivity. }
  set (w1 := mkWorld (Some (stored r s (store w))) (conn w) (trace w ++ write_events)).
  pose proof (verify_run env w1 (table_of_frame r) (table_of_frame s)
                (stored_lookup_receiving _ _ _) (stored_lookup_roster _ _ _)) as Hv.
  destruct (first_query_fault env) as [e|].
  - destruct Hv as [Hq [w' Hw']]. split; [done|].
    destruct (keeps_verify env w1) as (Hst & Hcn & t & Ht).
    rewrite Hw' in *. subst w1. cbn [store conn trace fst snd] in Hst, Hcn, Ht. exists t.
    unfold on_error, close, bind, print, emit, raise. cbn [store conn trace].
    rewrite Hst, Ht. rewrite <- ?app_assoc; reflexivity.
  - destruct Hv as [Hq ->]. split; [done|]. subst w1.
    unfold close. cbn [store conn trace]. rewrite <- ?app_assoc; reflexivity.
Qed.

Lemma run_Ok_all_goes_well env db w :
  run env db = (Ok (), w) → ∃ r s, all_goes_well env db r s.
Proof.
  intros Hrun. pose proof Hrun as Hrun'. revert Hrun'.
  rewrite run_paths. unfold all_goes_well, load_frames.
  destruct (path_exists env receiving_csv); [|discriminate].
  destruct (path_exists env roster_csv); [|discriminate].
  destruct (read_csv env receiving_csv) as [r0|]; [|discriminate]. simpl.
  destruct (coerce_receiving _ r0) as [r|]; [|discriminate]. simpl.
  destruct (read_csv env roster_csv) as [s0|]; [|discriminate]. simpl.
  destruct (coerce_roster _ s0) as [s|]; [|discriminate]. simpl.
  destruct (connect_fault env); [discriminate|].
  pose proof (try_block_paths env r s
    (mkWorld (Some (default ∅ db)) ConnOpen (events_connect r s))) as Hp.
  cbn [store conn trace default from_option id] in Hp.
  destruct (to_sql_fault env "receiving" r _) as [[e db1]|] eqn:Hw1;
    [rewrite Hp; discriminate|].
  destruct (to_sql_fault env "roster" s _) as [[e db2]|] eqn:Hw2;
    [rewrite Hp; discriminate|].
  destruct (first_query_fault env) as [e|].
  - destruct Hp as [_ [t ->]]. discriminate.
  - destruct Hp as [Hq _]. intros _. exists r, s. by repeat split.
Qed.

(** ** Further results *)

(** X1: the run ends normally exactly when nothing fails.  When both files
    exist, both frames are read and cast, the connection opens, both
    writes go through and no query fails, the run ends normally with both
    tables written, the connection closed and the whole output as listed:
    the progress lines, the two counts, one schema line per column and at
    most three sample rows per table.  Conversely a run that ends normally
    met all these conditions. *)
Theorem run_ok_iff_nothing_fails env db :
  (∀ r s, all_goes_well env db r s →
     run env db
     = (Ok (),
        mkWorld (Some (stored r s db)) ConnClosed
          (events_connect r s ++ write_events
           ++ verify_events (table_of_frame r) (table_of_frame s) ++ [EClose])))
  ∧ (∀ w, run env db = (Ok (), w) → ∃ r s, all_goes_well env db r s).
Proof.
  split.
  - intros r s. apply run_all_goes_well.
  - apply run_Ok_all_goes_well.
Qed.

Lemma run_ok_iff_nothing_fails_witness :
  all_goes_well sample_env (Some old_db) receiving_sample roster_sample
  ∧ run sample_env (Some old_db)
    = (Ok (),
       mkWorld (Some (stored receiving_sample roster_sample (Some old_db))) ConnClosed
         (events_connect receiving_sample roster_sample ++ write_events
          ++ verify_events (table_of_frame receiving_sample) (table_of_frame roster_sample)
          ++ [EClose])).
Proof.
  assert (all_goes_well sample_env (Some old_db) receiving_sample roster_sample) as H
    by (repeat split; reflexivity).
  split; [exact H|].
  exact (proj1 (run_ok_iff_nothing_fails sample_env (Some old_db)) _ _ H).
Defined.

(** X2: the row counts round-trip.  In a run that ends normally each stored
    table has as many rows as the frame [read_csv] made of its file, and
    the two "... table created with N records" lines report these numbers. *)
Theorem reported_counts_are_parsed_row_counts env db w :
  run env db = (Ok (), w) →
  ∃ r0 s0 tr ts,
    read_csv env receiving_csv = Ok r0
    ∧ read_csv env roster_csv = Ok s0
    ∧ default ∅ (store w) !! "receiving" = Some tr
    ∧ default ∅ (store w) !! "roster" = Some ts
    ∧ length (t_rows tr) = nrows r0
    ∧ length (t_rows ts) = nrows s0
    ∧ EPrint [FStr "Receiving table created with ";
              FInt (Z.of_nat (nrows r0)); FStr " records"] ∈ trace w
    ∧ EPrint [FStr "Roster table created with ";
              FInt (Z.of_nat (nrows s0)); FStr " records"] ∈ trace w.
Proof.
  intros Hrun. destruct (run_Ok_all_goes_well _ _ _ Hrun) as (r & s & Hall).
  rewrite (run_all_goes_well _ _ _ _ Hall) in Hrun.
  assert (store w = Some (stored r s db)
          ∧ trace w = events_connect r s ++ write_events
                      ++ verify_events (table_of_frame r) (table_of_frame s) ++ [EClose])
    as [Hst Htr] by (by injection Hrun as <-).
  rewrite Hst, Htr. clear Hrun Hst Htr.
  destruct Hall as (_ & _ & Hl & _).
  apply load_frames_Ok in Hl as (r0 & s0 & Hr0 & Hr & Hs0 & Hs).
  rewrite coerce_receiving_loop in Hr. rewrite coerce_roster_loop in Hs.
  apply cast_columns_Ok in Hr as (_ & Hnr & _).
  apply cast_columns_Ok in Hs as (_ & Hns & _).
  exists r0, s0, (table_of_frame r), (table_of_frame s).
  cbn [store conn trace default from_option id].
  assert (length (t_rows (table_of_frame r)) = nrows r0) as Hlr
    by (simpl; by rewrite length_fmap, length_seq).
  assert (length (t_rows (table_of_frame s)) = nrows s0) as Hls
    by (simpl; by rewrite length_fmap, length_seq).
  split; [done|]. split; [done|].
  split; [apply stored_lookup_receiving|]. split; [apply stored_lookup_roster|].
  split; [done|]. split; [done|].
  unfold verify_events. rewrite Hlr, Hls.
  split; apply elem_of_app; right; apply elem_of_app; right;
    apply elem_of_app; left.
  - apply list_elem_of_further, list_elem_of_here.
  - do 3 apply list_elem_of_further. apply list_elem_of_here.
Qed.

Lemma reported_counts_are_parsed_row_counts_witness :
  ∃ w, run sample_env None = (Ok (), w)
  ∧ ∃ r0 s0 tr ts,
    read_csv sample_env receiving_csv = Ok r0
    ∧ read_csv sample_env roster_csv = Ok s0
    ∧ default ∅ (store w) !! "receiving" = Some tr
    ∧ default ∅ (store w) !! "roster" = Some ts
    ∧ length (t_rows tr) = nrows r0
    ∧ length (t_rows ts) = nrows s0
    ∧ EPrint [FStr "Receiving table created with ";
              FInt (Z.of_nat (nrows r0)); FStr " records"] ∈ trace w
    ∧ EPrint [FStr "Roster table created with ";
              FInt (Z.of_nat (nrows s0)); FStr " records"] ∈ trace w.
Proof.
  eexists. split; [vm_compute; reflexivity|].
  apply (reported_counts_are_parsed_row_counts sample_env None).
  vm_compute. reflexivity.
Defined.

(** X3: a query that fails does not undo the writes.  When both writes
    went through and a verification query fails, the run raises the error
    of the first failing query, after the error line and the close; both
    tables stay as written. *)
Theorem query_failure_keeps_tables env db r s e :
  path_exists env receiving_csv = true →
  path_exists env roster_csv = true →
  load_frames env = Ok (r, s) →
  connect_fault env = None →
  to_sql_fault env "receiving" r (default ∅ db) = None →
  to_sql_fault env "roster" s (<["receiving" := table_of_frame r]> (default ∅ db)) = None →
  first_query_fault env = Some e →
  ∃ t,
    run env db
    = (Raise e,
       mkWorld (Some (stored r s db)) ConnClosed
         (events_connect r s ++ write_events ++ t ++ [EPrint (error_line e); EClose])).
Proof.
  intros H1 H2 Hl Hc Hw1 Hw2 Hf.
  rewrite (run_connected env db r s) by done.
  pose proof (try_block_paths env r s
    (mkWorld (Some (default ∅ db)) ConnOpen (events_connect r s))) as Hp.
  cbn [store conn trace default from_option id] in Hp.
  rewrite Hw1, Hw2, Hf in Hp. destruct Hp as [_ [t Ht]].
  exists t. by rewrite Ht.
Qed.

Lemma query_failure_keeps_tables_witness :
  first_query_fault env_query_fault = Some (OperationalError "database is locked")
  ∧ ∃ t,
    run env_query_fault None
    = (Raise (OperationalError "database is locked"),
       mkWorld (Some (stored receiving_sample roster_sample None)) ConnClosed
         (events_connect receiving_sample roster_sample ++ write_events ++ t
          ++ [EPrint (error_line (OperationalError "database is locked")); EClose])).
Proof.
  split; [reflexivity|].
  apply (query_failure_keeps_tables env_query_fault None receiving_sample roster_sample);
    reflexivity.
Defined.

(** X4: there is no transaction over the two writes.  When the receiving
    table was written and the write of the roster table fails, that write
    was handed the database with the new receiving table, the run raises
    its error after the error line and the close, no query is executed,
    and the database is left as the failed write left it. *)
Theorem roster_write_failure_keeps_receiving_write env db r s e db' :
  path_exists env receiving_csv = true →
  path_exists env roster_csv = true →
  load_frames env = Ok (r, s) →
  connect_fault env = None →
  to_sql_fault env "receiving" r (default ∅ db) = None →
  to_sql_fault env "roster" s (<["receiving" := table_of_frame r]> (default ∅ db))
  = Some (e, db') →
  run env db
  = (Raise e,
     mkWorld (Some db') ConnClosed
       (events_connect r s ++ write_events ++ [EPrint (error_line e); EClose])).
Proof.
  intros H1 H2 Hl Hc Hw1 Hw2.
  rewrite (run_connected env db r s) by done.
  pose proof (try_block_paths env r s
    (mkWorld (Some (default ∅ db)) ConnOpen (events_connect r s))) as Hp.
  cbn [store conn trace default from_option id] in Hp.
  by rewrite Hw1, Hw2 in Hp.
Qed.

Lemma roster_write_failure_keeps_receiving_write_witness :
  ∃ w,
    run env_write_fault (Some old_db)
    = (Raise (OperationalError "database is locked"), w)
    ∧ default ∅ (store w) !! "receiving" = Some (table_of_frame receiving_sample)
    ∧ default ∅ (store w) !! "roster" = None.
Proof.
  eexists. split.
  - apply (roster_write_failure_keeps_receiving_write env_write_fault (Some old_db)
             receiving_sample roster_sample); reflexivity.
  - split; vm_compute; reflexivity.
Defined.

(** X5: a failed first write ends the [try] block.  When the write of the
    receiving table fails, the roster table is not written and no query is
    executed: the run prints the error line, closes the connection and
    raises, and the database is left as that write left it. *)
Theorem receiving_write_failure_skips_roster env db r s e db' :
  path_exists env receiving_csv = true →
  path_exists env roster_csv = true →
  load_frames env = Ok (r, s) →
  connect_fault env = None →
  to_sql_fault env "receiving" r (default ∅ db) = Some (e, db') →
  run env db
  = (Raise e,
     mkWorld (Some db') ConnClosed
       (events_connect r s
        ++ [EPrint [FStr "Creating receiving table..."]; EToSql "receiving";
            EPrint (error_line e); EClose])).
Proof.
  intros H1 H2 Hl Hc Hw1.
  rewrite (run_connected env db r s) by done.
  pose proof (try_block_paths env r s
    (mkWorld (Some (default ∅ db)) ConnOpen (events_connect r s))) as Hp.
  cbn [store conn trace default from_option id] in Hp.
  by rewrite Hw1 in Hp.
Qed.

Lemma receiving_write_failure_skips_roster_witness :
  ∃ w,
    run env_first_write_fault None
    = (Raise (OperationalError "database or disk is full"), w)
    ∧ store w = Some ∅
    ∧ EToSql "roster" ∉ trace w.
Proof.
  eexists. split.
  - apply (receiving_write_failure_skips_roster env_first_write_fault None
             receiving_sample roster_sample); reflexivity.
  - split; [reflexivity|]. simpl. not_in_list.
Defined.

(** X6: the receiving file is dealt with in full before the roster file is
    touched.  When both files exist and reading or casting the receiving
    frame fails, the run raises that error having printed two progress
    lines and made one [read_csv] call: the roster file is never read. *)
Theorem receiving_failure_skips_roster_file env db e :
  path_exists env receiving_csv = true →
  path_exists env roster_csv = true →
  read_csv env receiving_csv = Raise e
  ∨ (∃ r0, read_csv env receiving_csv = Ok r0
           ∧ coerce_receiving (cast_env env) r0 = Raise e) →
  run env db = (Raise e, mkWorld db NoConn events_receiving_read)
  ∧ EReadCsv roster_csv ∉ events_receiving_read.
Proof.
  intros H1 H2 H. rewrite run_paths, H1, H2. split; [|not_in_list].
  destruct H as [->|(r0 & -> & ->)]; done.
Qed.

Lemma receiving_failure_skips_roster_file_witness :
  run env_gap None = (Raise IntCastingNaNError, mkWorld None NoConn events_receiving_read)
  ∧ EReadCsv roster_csv ∉ events_receiving_read.
Proof.
  apply (receiving_failure_skips_roster_file env_gap None IntCastingNaNError);
    [reflexivity | reflexivity |].
  right. exists receiving_with_gap. split; reflexivity.
Defined.

(** ** More on the casts *)

Lemma wrap64_in_range z : in_int64 z = true → wrap64 z = z.
Proof.
  unfold in_int64, wrap64, int64_min, int64_max.
  intros [H1 H2]%andb_true_iff. apply Z.leb_le in H1, H2.
  rewrite Z.mod_small by lia. lia.
Qed.

Lemma astype_int64_int_series ce s : int_series s → astype_int64 ce s = Ok s.
Proof.
  destruct s as [d vs]. intros [Hd Hall]. simpl in Hd, Hall. subst d.
  unfold astype_int64. simpl.
  assert (res_mapM (cast_cell ce) vs = Ok vs) as ->; [|done].
  induction Hall as [|c l [Hc _] _ IH]; [done|].
  simpl. destruct c as [z| | |]; try discriminate.
  simpl in Hc. simpl. rewrite (wrap64_in_range z Hc), IH. done.
Qed.

Lemma assoc_set_same {V} k (v : V) l : assoc k l = Some v → assoc_set k v l = l.
Proof.
  induction l as [|[k' v'] l IH]; simpl; [done|].
  destruct (decide (k' = k)); [by intros [= ->]|]. intros H. by rewrite IH.
Qed.

Lemma cast_columns_int_series ce names df :
  (∀ c, c ∈ names → ∃ s, assoc c (columns df) = Some s ∧ int_series s) →
  cast_columns ce names df = Ok df.
Proof.
  induction names as [|n names IH]; intros H; simpl; [done|].
  destruct (H n) as (s & Hs & Hint); [by left|].
  unfold cast_column, getitem. rewrite Hs. simpl.
  rewrite astype_int64_int_series by done. simpl.
  unfold setitem. rewrite assoc_set_same by done.
  destruct df. simpl. apply IH. intros c Hc. apply H. by right.
Qed.

Lemma cast_columns_absent ce names : ∀ df c,
  c ∈ names → assoc c (columns df) = None →
  ∃ e, cast_columns ce names df = Raise e.
Proof.
  induction names as [|n names IH]; intros df c Hc Habs; [by apply elem_of_nil in Hc|].
  simpl. destruct (cast_column ce n df) as [df1|e] eqn:H1; simpl; [|eauto].
  apply cast_column_Ok in H1 as (s0 & s1 & Hs0 & _ & ->).
  apply elem_of_cons in Hc as [->|Hc]; [congruence|].
  apply (IH _ c Hc). simpl.
  destruct (decide (n = c)) as [->|Hne]; [congruence|].
  by rewrite assoc_set_ne.
Qed.

Lemma table_schema_lookup df c :
  assoc c (t_schema (table_of_frame df))
  = sql_type_of <$> assoc c (columns df).
Proof.
  unfold table_of_frame. simpl.
  induction (columns df) as [|[k v] l IH]; csimpl; [done|].
  destruct (decide (k = c)); [done|]. apply IH.
Qed.

(** X7: casting is idempotent.  A frame that came out of a successful
    coerce step is left unchanged by a second coerce step, whatever the
    cast primitives: its integer columns already are [int64] columns. *)
Theorem coerce_idempotent ce ce' df df' :
  (coerce_receiving ce df = Ok df' → coerce_receiving ce' df' = Ok df')
  ∧ (coerce_roster ce df = Ok df' → coerce_roster ce' df' = Ok df').
Proof.
  rewrite !coerce_receiving_loop, !coerce_roster_loop.
  split; intros H; apply cast_columns_Ok in H as (_ & _ & _ & _ & Hin & _);
    by apply cast_columns_int_series.
Qed.

Lemma coerce_idempotent_witness :
  coerce_roster no_cast_env roster_float_ids = Ok roster_sample
  ∧ coerce_roster no_cast_env roster_sample = Ok roster_sample.
Proof.
  assert (coerce_roster no_cast_env roster_float_ids = Ok roster_sample) as H
    by reflexivity.
  split; [exact H|].
  exact (proj2 (coerce_idempotent no_cast_env no_cast_env roster_float_ids roster_sample) H).
Defined.

(** X8: a frame that lacks one of the columns to cast makes the coerce step
    raise (the cast of the absent column itself raises [KeyError] with the
    column name): the step never adds the column, and never returns a
    frame. *)
Theorem absent_int_column_raises ce df c :
  assoc c (columns df) = None →
  cast_column ce c df = Raise (KeyError c)
  ∧ (c ∈ receiving_int_columns → ∃ e, coerce_receiving ce df = Raise e)
  ∧ (c ∈ roster_int_columns → ∃ e, coerce_roster ce df = Raise e).
Proof.
  intros Habs. split; [|split].
  - unfold cast_column, getitem. by rewrite Habs.
  - intros Hc. rewrite coerce_receiving_loop. by eapply cast_columns_absent.
  - intros Hc. rewrite coerce_roster_loop. by eapply cast_columns_absent.
Qed.

Lemma absent_int_column_raises_witness :
  assoc "TD" (columns receiving_without_td) = None
  ∧ coerce_receiving no_cast_env receiving_without_td = Raise (KeyError "TD")
  ∧ cast_column no_cast_env "TD" receiving_without_td = Raise (KeyError "TD")
  ∧ ("TD" ∈ receiving_int_columns → ∃ e, coerce_receiving no_cast_env receiving_without_td = Raise e).
Proof.
  split; [reflexivity|]. split; [reflexivity|].
  destruct (absent_int_column_raises no_cast_env receiving_without_td "TD" eq_refl)
    as (H1 & H2 & _).
  split; [exact H1 | exact H2].
Defined.


(** ** What a run never does *)

Lemma emits_allowed_ret {A} (a : A) : emits_allowed (ret a).
Proof. intros w. exists []. simpl. by rewrite app_nil_r. Qed.

Lemma emits_allowed_raise {A} e : emits_allowed (@raise A e).
Proof. intros w. exists []. simpl. by rewrite app_nil_r. Qed.

Lemma emits_allowed_lift {A} (r : res A) : emits_allowed (lift r).
Proof. intros w. exists []. simpl. by rewrite app_nil_r. Qed.

Lemma emits_allowed_emit ev : allowed ev → emits_allowed (emit ev).
Proof. intros H w. exists [ev]. simpl. split; [done|]. by constructor. Qed.

Lemma emits_allowed_print l : emits_allowed (print l).
Proof. by apply emits_allowed_emit. Qed.

Lemma emits_allowed_bind {A B} (m : M A) (k : A → M B) :
  emits_allowed m → (∀ a, emits_allowed (k a)) → emits_allowed (bind m k).
Proof.
  intros Hm Hk w. unfold bind. destruct (Hm w) as (t & Ht & Hall).
  destruct (m w) as [[a|e] w1]; simpl in *; [|eauto].
  destruct (Hk a w1) as (t' & Ht' & Hall').
  exists (t ++ t'). rewrite Ht', Ht, app_assoc. split; [done|].
  by apply Forall_app.
Qed.

Lemma emits_allowed_same_trace {A} (f : World → res A * World) :
  (∀ w, trace (f w).2 = trace w) → emits_allowed f.
Proof. intros H w. exists []. by rewrite H, app_nil_r. Qed.

Lemma emits_allowed_execute {A} env sql (result : Database → res A) :
  sql ∈ queries → emits_allowed (execute env sql result).
Proof.
  intros Hq. unfold execute. apply emits_allowed_bind; [by apply emits_allowed_emit|].
  intros _. destruct (execute_fault env sql); [apply emits_allowed_raise|].
  by apply emits_allowed_same_trace.
Qed.

Lemma emits_allowed_print_rows rows : emits_allowed (print_rows rows).
Proof.
  induction rows as [|r rows IH]; simpl; [apply emits_allowed_ret|].
  apply emits_allowed_bind; [apply emits_allowed_print | done].
Qed.

Lemma emits_allowed_to_sql env df name mode :
  name = "receiving" ∨ name = "roster" → emits_allowed (to_sql env df name mode).
Proof.
  intros Hn. unfold to_sql. apply emits_allowed_bind; [by apply emits_allowed_emit|].
  intros _. apply emits_allowed_same_trace. intros w.
  destruct (to_sql_fault env name df _) as [[e db']|]; [done|].
  by destruct (write_frame mode name df _).
Qed.

Lemma emits_allowed_try {A} (body : M A) handler final :
  emits_allowed body → (∀ e, emits_allowed (handler e)) → emits_allowed final →
  emits_allowed (try_except_finally body handler final).
Proof.
  intros Hb Hh Hf w. unfold try_except_finally.
  destruct (Hb w) as (t1 & Ht1 & Hall1). destruct (body w) as [[a|e] w1]; simpl in *.
  - destruct (Hf w1) as (t3 & Ht3 & Hall3). destruct (final w1) as [rf w3]; simpl in *.
    exists (t1 ++ t3). rewrite Ht3, Ht1, app_assoc. split; [done|]. by apply Forall_app.
  - destruct (Hh e w1) as (t2 & Ht2 & Hall2). destruct (handler e w1) as [r2 w2]; simpl in *.
    destruct (Hf w2) as (t3 & Ht3 & Hall3). destruct (final w2) as [rf w3]; simpl in *.
    exists (t1 ++ t2 ++ t3). rewrite Ht3, Ht2, Ht1, !app_assoc. split; [done|].
    repeat (apply Forall_app; split); done.
Qed.

Ltac query_listed := unfold queries; eval_appends; set_solver.

Lemma emits_allowed_verify env : emits_allowed (verify env).
Proof.
  unfold verify, select_count, pragma_table_info, select_limit3.
  repeat first
    [ apply emits_allowed_print | apply emits_allowed_print_rows
    | apply emits_allowed_execute; query_listed
    | apply emits_allowed_bind; [ | intros ? ] ].
Qed.

Lemma emits_allowed_script env : emits_allowed (create_football_database env).
Proof.
  unfold create_football_database.
  apply emits_allowed_bind.
  { unfold check_inputs, exists_.
    apply emits_allowed_bind.
    - apply emits_allowed_bind; [apply emits_allowed_emit; by left|].
      intros _. apply emits_allowed_ret.
    - intros b1. destruct b1; simpl; [|apply emits_allowed_raise].
      apply emits_allowed_bind.
      + apply emits_allowed_bind; [apply emits_allowed_emit; by right|].
        intros _. apply emits_allowed_ret.
      + intros b2. destruct b2; simpl; [apply emits_allowed_ret | apply emits_allowed_raise]. }
  intros _. apply emits_allowed_bind.
  { unfold load_receiving, pd_read_csv.
    repeat first
      [ apply emits_allowed_print | apply emits_allowed_lift | apply emits_allowed_ret
      | apply emits_allowed_emit; by left
      | apply emits_allowed_bind; [ | intros ? ] ]. }
  intros r. apply emits_allowed_bind.
  { unfold load_roster, pd_read_csv.
    repeat first
      [ apply emits_allowed_print | apply emits_allowed_lift | apply emits_allowed_ret
      | apply emits_allowed_emit; by right
      | apply emits_allowed_bind; [ | intros ? ] ]. }
  intros s. apply emits_allowed_bind; [apply emits_allowed_print|].
  intros _. apply emits_allowed_bind.
  { unfold connect. apply emits_allowed_bind; [by apply emits_allowed_emit|].
    intros _. destruct (connect_fault env); [apply emits_allowed_raise|].
    by apply emits_allowed_same_trace. }
  intros _. apply emits_allowed_try.
  - unfold write_and_verify, write_tables.
    repeat first
      [ apply emits_allowed_print | apply emits_allowed_ret | apply emits_allowed_verify
      | apply emits_allowed_to_sql; by eauto
      | apply emits_allowed_bind; [ | intros ? ] ].
  - intros e. unfold on_error.
    apply emits_allowed_bind; [apply emits_allowed_print|].
    intros _. apply emits_allowed_raise.
  - intros w. exists [EClose]. simpl. split; [done|]. by constructor.
Qed.

(** X10: whatever happens, a run only makes the calls the script names: it
    looks at and reads no file but [Data/receiving.csv] and
    [Data/roster.csv], opens no database but [football_data.db], writes no
    table but [receiving] and [roster], and executes no statement but the
    six queries of the verification, none of which writes. *)
Theorem run_makes_only_named_calls env db :
  Forall allowed (trace (run env db).2).
Proof.
  unfold run.
  destruct (emits_allowed_script env (mkWorld db NoConn [])) as (t & -> & Hall).
  done.
Qed.

(** ** The stored cells *)

Lemma stored_cell_of_frame df i c :
  (i < nrows df)%nat →
  stored_cell (table_of_frame df) i c
  = (λ col, sql_of_cell (default missing (s_values col !! i))) <$> assoc c (columns df).
Proof.
  intros Hi. unfold stored_cell, table_of_frame. cbn [t_rows t_schema].
  rewrite list_lookup_fmap, lookup_seq_lt by done. cbn [fmap option_fmap option_map mbind option_bind].
  unfold frame_row.
  induction (columns df) as [|[k v] l IH]; csimpl; [done|].
  destruct (decide (k = c)); [done|]. apply IH.
Qed.

Lemma assoc_column_length df c col :
  rectangular df → assoc c (columns df) = Some col →
  length (s_values col) = nrows df.
Proof.
  unfold rectangular, column_lengths.
  induction (columns df) as [|[k v] l IH]; csimpl; [done|].
  intros Hall. apply Forall_cons in Hall as [Hv Hall].
  destruct (decide (k = c)); [by intros [= <-]|]. by apply IH.
Qed.

Lemma cast_columns_rectangular ce names df df' :
  cast_columns ce names df = Ok df' → rectangular df → rectangular df'.
Proof.
  intros H. apply cast_columns_Ok in H as (_ & Hn & Hl & _).
  unfold rectangular. by rewrite Hl, Hn.
Qed.

Lemma int_series_stored col i :
  int_series col → (i < length (s_values col))%nat →
  ∃ z, sql_of_cell (default missing (s_values col !! i)) = SqlInt z ∧ in_int64 z = true.
Proof.
  intros [_ Hall] Hi.
  destruct (lookup_lt_is_Some_2 _ _ Hi) as [cl Hcl]. rewrite Hcl. simpl.
  rewrite Forall_lookup in Hall. destruct (Hall i cl Hcl) as [Hw _].
  destruct cl as [z| | |]; try discriminate. by exists z.
Qed.

(** X11: no NULL in the integer columns of the stored tables.  In a run
    that ends normally on rectangular frames, every row of the stored
    receiving table holds an integer of the [int64] range in each of #,
    GP, NO, YDS, TD, Long, PlayerID, and every row of the stored roster
    table holds one in id and number. *)
Theorem stored_int_cells_are_integers env db w :
  run env db = (Ok (), w) →
  ∃ r0 s0 tr ts,
    read_csv env receiving_csv = Ok r0
    ∧ read_csv env roster_csv = Ok s0
    ∧ default ∅ (store w) !! "receiving" = Some tr
    ∧ default ∅ (store w) !! "roster" = Some ts
    ∧ (rectangular r0 → ∀ i c, (i < nrows r0)%nat → c ∈ receiving_int_columns →
         ∃ z, stored_cell tr i c = Some (SqlInt z) ∧ in_int64 z = true)
    ∧ (rectangular s0 → ∀ i c, (i < nrows s0)%nat → c ∈ roster_int_columns →
         ∃ z, stored_cell ts i c = Some (SqlInt z) ∧ in_int64 z = true).
Proof.
  intros Hrun. apply run_Ok_inv in Hrun as (r & s & Hl & Hst & _).
  apply load_frames_Ok in Hl as (r0 & s0 & Hr0 & Hr & Hs0 & Hs).
  rewrite coerce_receiving_loop in Hr. rewrite coerce_roster_loop in Hs.
  pose proof (cast_columns_rectangular _ _ _ _ Hr) as Hrr.
  pose proof (cast_columns_rectangular _ _ _ _ Hs) as Hrs.
  apply cast_columns_Ok in Hr as (_ & Hnr & _ & _ & Hir & _).
  apply cast_columns_Ok in Hs as (_ & Hns & _ & _ & His & _).
  exists r0, s0, (table_of_frame r), (table_of_frame s). rewrite Hst.
  cbn [default from_option id].
  split; [done|]. split; [done|].
  split; [apply stored_lookup_receiving|]. split; [apply stored_lookup_roster|].
  split.
  - intros Hrect i c Hi Hc. rewrite stored_cell_of_frame by lia.
    destruct (Hir c Hc) as (col & Hcol & Hint). rewrite Hcol. simpl.
    destruct (int_series_stored col i Hint) as (z & -> & Hz); [|by exists z].
    rewrite (assoc_column_length r c col); [lia | by apply Hrr | done].
  - intros Hrect i c Hi Hc. rewrite stored_cell_of_frame by lia.
    destruct (His c Hc) as (col & Hcol & Hint). rewrite Hcol. simpl.
    destruct (int_series_stored col i Hint) as (z & -> & Hz); [|by exists z].
    rewrite (assoc_column_length s c col); [lia | by apply Hrs | done].
Qed.

Lemma stored_int_cells_are_integers_witness :
  ∃ w, run sample_env None = (Ok (), w)
  ∧ ∃ r0 s0 tr ts,
    read_csv sample_env receiving_csv = Ok r0
    ∧ read_csv sample_env roster_csv = Ok s0
    ∧ default ∅ (store w) !! "receiving" = Some tr
    ∧ default ∅ (store w) !! "roster" = Some ts
    ∧ (rectangular r0 → ∀ i c, (i < nrows r0)%nat → c ∈ receiving_int_columns →
         ∃ z, stored_cell tr i c = Some (SqlInt z) ∧ in_int64 z = true)
    ∧ (rectangular s0 → ∀ i c, (i < nrows s0)%nat → c ∈ roster_int_columns →
         ∃ z, stored_cell ts i c = Some (SqlInt z) ∧ in_int64 z = true).
Proof.
  eexists. split; [vm_compute; reflexivity|].
  apply (stored_int_cells_are_integers sample_env None).
  vm_compute. reflexivity.
Defined.


(** * Values: what the casts and the store make of them *)

(** ** Truncation *)



Lemma float_equals_truncates f z : float_equals f z → truncates f z.
Proof.
  destruct f as [sg|sg| |sg m e]; simpl; try done.
  intros H. destruct (0 <=? e) eqn:He.
  - apply Z.leb_le in He. rewrite Z.max_l, Z.max_r in H by lia.
    rewrite Z.pow_0_r, Z.mul_1_r in H.
    exists (Z.pos m * 2 ^ e). split; [|done]. destruct sg; lia.
  - apply Z.leb_gt in He. rewrite Z.max_r, Z.max_l in H by lia.
    rewrite Z.pow_0_r, Z.mul_1_r in H.
    assert (0 < 2 ^ (- e)) as Hp by (apply Z.pow_pos_nonneg; lia).
    exists (if sg then - z else z). split; [destruct sg; lia|].
    destruct sg; nia.
Qed.




(** In a loop over distinct names every listed column of the result is
    the cast of the column the frame came with. *)
Lemma cast_columns_casts ce names : ∀ df df',
  NoDup names → cast_columns ce names df = Ok df' →
  ∀ c, c ∈ names →
       ∃ col col', assoc c (columns df) = Some col
                   ∧ assoc c (columns df') = Some col'
                   ∧ astype_int64 ce col = Ok col'.
Proof.
  induction names as [|n names IH]; intros df df' Hnd H c Hc; [by apply elem_of_nil in Hc|].
  apply NoDup_cons in Hnd as [Hn Hnd]. simpl in H.
  destruct (cast_column ce n df) as [df1|] eqn:H1; simpl in H; [|discriminate].
  apply cast_column_Ok in H1 as (s0 & s1 & Hs0 & Hcast & ->).
  destruct (decide (c = n)) as [->|Hne].
  - exists s0, s1. split; [done|]. split; [|done].
    apply cast_columns_Ok in H as (_ & _ & _ & Hout & _).
    rewrite (Hout n Hn). simpl. apply assoc_set_eq.
  - apply elem_of_cons in Hc as [?|Hc]; [done|].
    destruct (IH _ _ Hnd H c Hc) as (col & col' & Hcol & Hcol' & Hc').
    exists col, col'. split; [|done]. simpl in Hcol.
    by rewrite assoc_set_ne in Hcol.
Qed.

Lemma receiving_int_columns_NoDup : NoDup receiving_int_columns.
Proof. unfold receiving_int_columns. repeat (apply NoDup_cons; split; [not_in_list|]). apply NoDup_nil_2. Qed.

Lemma roster_int_columns_NoDup : NoDup roster_int_columns.
Proof. unfold roster_int_columns. repeat (apply NoDup_cons; split; [not_in_list|]). apply NoDup_nil_2. Qed.

(** ** The coerce step and the values *)




Lemma int_series_lookup col i :
  int_series col → (i < length (s_values col))%nat →
  ∃ z, s_values col !! i = Some (CInt z) ∧ in_int64 z = true.
Proof.
  intros [_ Hall] Hi.
  destruct (lookup_lt_is_Some_2 _ _ Hi) as [cl Hcl]. rewrite Hcl.
  rewrite Forall_lookup in Hall. destruct (Hall i cl Hcl) as [Hw _].
  destruct cl as [z| | |]; try discriminate. by exists z.
Qed.

(** The listed columns of a frame after a successful loop of casts, row by
    row against the frame it came from. *)
Lemma cast_columns_rows ce names df df' :
  NoDup names → cast_columns ce names df = Ok df' →
  ∀ c, c ∈ names →
    ∃ col0 col,
      getitem df c = Ok col0 ∧ getitem df' c = Ok col
      ∧ int_series col
      ∧ length (s_values col) = length (s_values col0)
      ∧ (rectangular df → length (s_values col) = nrows df)
      ∧ ∀ i, (i < length (s_values col0))%nat →
             ∃ z, s_values col !! i = Some (CInt z) ∧ in_int64 z = true.
Proof.
  intros Hnd Hc c Hin.
  destruct (cast_columns_casts ce names df df' Hnd Hc c Hin)
    as (col0 & col & Hcol0 & Hcol & Has).
  apply astype_int64_Ok in Has as (Hint & Hlen & _).
  exists col0, col. unfold getitem. rewrite Hcol0, Hcol.
  split; [done|]. split; [done|]. split; [done|]. split; [done|]. split.
  - intros Hrect. rewrite Hlen. by eapply assoc_column_length.
  - intros i Hi. apply int_series_lookup; [done | lia].
Qed.

(** C4: when the run succeeds, the frames it stored are the cast frames, in
    which each of the receiving columns #, GP, NO, YDS, TD, Long, PlayerID
    and of the roster columns id, number is an [int64] column with one
    whole number of the [int64] range for every entry of the column as
    read (for every row, when the frame read is rectangular): no entry is
    missing.  The roster column height is the column as it was read, text
    included: no cast touches it. *)
Theorem int_columns_whole_after_coercion env db w :
  run env db = (Ok (), w) →
  ∃ r0 r s0 s,
    read_csv env receiving_csv = Ok r0
    ∧ coerce_receiving (cast_env env) r0 = Ok r
    ∧ read_csv env roster_csv = Ok s0
    ∧ coerce_roster (cast_env env) s0 = Ok s
    ∧ store w = Some (stored r s db)
    ∧ nrows r = nrows r0 ∧ nrows s = nrows s0
    ∧ (∀ c, c ∈ receiving_int_columns →
         ∃ col0 col,
           getitem r0 c = Ok col0 ∧ getitem r c = Ok col
           ∧ int_series col
           ∧ length (s_values col) = length (s_values col0)
           ∧ (rectangular r0 → length (s_values col) = nrows r0)
           ∧ ∀ i, (i < length (s_values col0))%nat →
                  ∃ z, s_values col !! i = Some (CInt z) ∧ in_int64 z = true)
    ∧ (∀ c, c ∈ roster_int_columns →
         ∃ col0 col,
           getitem s0 c = Ok col0 ∧ getitem s c = Ok col
           ∧ int_series col
           ∧ length (s_values col) = length (s_values col0)
           ∧ (rectangular s0 → length (s_values col) = nrows s0)
           ∧ ∀ i, (i < length (s_values col0))%nat →
                  ∃ z, s_values col !! i = Some (CInt z) ∧ in_int64 z = true)
    ∧ getitem s "height" = getitem s0 "height".
Proof.
  intros Hrun. apply run_Ok_inv in Hrun as (r & s & Hload & Hstore & _).
  apply load_frames_Ok in Hload as (r0 & s0 & Hr0 & Hr & Hs0 & Hs).
  exists r0, r, s0, s.
  split; [done|]. split; [done|]. split; [done|]. split; [done|]. split; [done|].
  rewrite coerce_receiving_loop in Hr. rewrite coerce_roster_loop in Hs.
  pose proof (cast_columns_rows _ _ _ _ receiving_int_columns_NoDup Hr) as Hrr.
  pose proof (cast_columns_rows _ _ _ _ roster_int_columns_NoDup Hs) as Hrs.
  apply cast_columns_Ok in Hr as (_ & Hnr & _).
  apply cast_columns_Ok in Hs as (_ & Hns & _ & Hout & _).
  split; [done|]. split; [done|]. split; [done|]. split; [done|].
  apply getitem_assoc, Hout. unfold roster_int_columns. not_in_list.
Qed.

Lemma int_columns_whole_after_coercion_witness :
  ∃ w, run sample_env (Some old_db) = (Ok (), w)
  ∧ ∃ r0 r s0 s,
    read_csv sample_env receiving_csv = Ok r0
    ∧ coerce_receiving (cast_env sample_env) r0 = Ok r
    ∧ read_csv sample_env roster_csv = Ok s0
    ∧ coerce_roster (cast_env sample_env) s0 = Ok s
    ∧ store w = Some (stored r s (Some old_db))
    ∧ nrows r = nrows r0 ∧ nrows s = nrows s0
    ∧ (∀ c, c ∈ receiving_int_columns →
         ∃ col0 col,
           getitem r0 c = Ok col0 ∧ getitem r c = Ok col
           ∧ int_series col
           ∧ length (s_values col) = length (s_values col0)
           ∧ (rectangular r0 → length (s_values col) = nrows r0)
           ∧ ∀ i, (i < length (s_values col0))%nat →
                  ∃ z, s_values col !! i = Some (CInt z) ∧ in_int64 z = true)
    ∧ (∀ c, c ∈ roster_int_columns →
         ∃ col0 col,
           getitem s0 c = Ok col0 ∧ getitem s c = Ok col
           ∧ int_series col
           ∧ length (s_values col) = length (s_values col0)
           ∧ (rectangular s0 → length (s_values col) = nrows s0)
           ∧ ∀ i, (i < length (s_values col0))%nat →
                  ∃ z, s_values col !! i = Some (CInt z) ∧ in_int64 z = true)
    ∧ getitem s "height" = getitem s0 "height".
Proof.
  eexists. split; [vm_compute; reflexivity|].
  apply (int_columns_whole_after_coercion sample_env (Some old_db)).
  vm_compute. reflexivity.
Defined.

(** ** Failures and the error line *)

Lemma early_fault_None env :
  early_fault env = None →
  path_exists env receiving_csv = true ∧ path_exists env roster_csv = true
  ∧ connect_fault env = None ∧ ∃ r s, load_frames env = Ok (r, s).
Proof.
  unfold early_fault.
  destruct (path_exists env receiving_csv); [|discriminate].
  destruct (path_exists env roster_csv); [|discriminate]. simpl.
  destruct (load_frames env) as [[r s]|]; [|discriminate].
  intros ->. repeat split. by exists r, s.
Qed.

(** C1, amended: a failure is reported by the script only when it happens
    inside the [try] block.  (1) When a file is missing, a read or a cast
    fails or the connection is refused, the run raises that error with
    the connection never opened, the tables as they were and no error
    line printed.  (2) In particular a missing file makes the run raise
    [FileNotFoundError] whose message carries the missing path, and
    nothing at all is printed.  (3) When a write or a query fails, the run
    raises that error, and its last two events are the printed line
    "Error creating database: <message of the error>" and the close of
    the connection.  (4) Every run that fails is one of these two kinds. *)
Theorem error_line_printed_in_try_block env db :
  (∀ e, early_fault env = Some e →
     ∃ w, run env db = (Raise e, w)
          ∧ conn w = NoConn ∧ store w = db
          ∧ ∀ e', EPrint (error_line e') ∉ trace w)
  ∧ (path_exists env receiving_csv = false ∨ path_exists env roster_csv = false →
     ∃ p w,
       path_exists env p = false
       ∧ run env db = (Raise (FileNotFoundError ("CSV file not found: " +:+ p)), w)
       ∧ ∀ l, EPrint l ∉ trace w)
  ∧ (∀ r s e,
       early_fault env = None → load_frames env = Ok (r, s) →
       try_fault env db r s = Some e →
       ∃ w t,
         run env db = (Raise e, w)
         ∧ conn w = ConnClosed
         ∧ trace w = events_connect r s ++ t ++ [EPrint (error_line e); EClose])
  ∧ (∀ e w,
       run env db = (Raise e, w) →
       early_fault env = Some e
       ∨ ∃ r s, early_fault env = None ∧ load_frames env = Ok (r, s)
                ∧ try_fault env db r s = Some e).
Proof.
  split; [|split; [|split]].
  - intros e. rewrite run_paths. unfold early_fault, load_frames.
    destruct (path_exists env receiving_csv); simpl;
      [|intros [= <-]; eexists; split; [done|]; repeat split; intros e'; not_in_list].
    destruct (path_exists env roster_csv); simpl;
      [|intros [= <-]; eexists; split; [done|]; repeat split; intros e'; not_in_list].
    destruct (read_csv env receiving_csv) as [r0|]; simpl;
      [|intros [= <-]; eexists; split; [done|]; repeat split; intros e'; not_in_list].
    destruct (coerce_receiving _ r0) as [r|]; simpl;
      [|intros [= <-]; eexists; split; [done|]; repeat split; intros e'; not_in_list].
    destruct (read_csv env roster_csv) as [s0|]; simpl;
      [|intros [= <-]; eexists; split; [done|]; repeat split; intros e'; not_in_list].
    destruct (coerce_roster _ s0) as [s|]; simpl;
      [|intros [= <-]; eexists; split; [done|]; repeat split; intros e'; not_in_list].
    intros ->. eexists; split; [done|]; repeat split; intros e'; not_in_list.
  - intros H. rewrite run_paths.
    destruct (path_exists env receiving_csv) eqn:H1.
    + destruct H as [H|H]; [discriminate|]. rewrite H.
      exists roster_csv. eexists. split; [done|]. split; [done|].
      intros l. not_in_list.
    + exists receiving_csv. eexists. split; [done|]. split; [done|].
      intros l. not_in_list.
  - intros r s e Hearly Hl Hf.
    destruct (early_fault_None env Hearly) as (H1 & H2 & Hc & _).
    rewrite (run_connected env db r s) by done.
    pose proof (try_block_paths env r s
      (mkWorld (Some (default ∅ db)) ConnOpen (events_connect r s))) as Hp.
    cbn [store conn trace default from_option id] in Hp.
    unfold try_fault in Hf.
    destruct (to_sql_fault env "receiving" r _) as [[e1 db1]|].
    { injection Hf as ->. rewrite Hp. eexists _, _. split; [done|]. split; [done|].
      cbn [trace]. by instantiate (1 := [_; _]). }
    destruct (to_sql_fault env "roster" s _) as [[e2 db2]|].
    { injection Hf as ->. rewrite Hp. eexists _, write_events. split; [done|]. by split. }
    rewrite Hf in Hp. destruct Hp as [_ [t ->]].
    eexists _, (write_events ++ t). split; [done|]. split; [done|].
    cbn [trace]. by rewrite <- !app_assoc.
  - intros e w. pose proof (run_paths env db) as Hrun. revert Hrun.
    unfold early_fault, load_frames, try_fault.
    destruct (path_exists env receiving_csv); simpl;
      [|intros -> [= <- _]; by left].
    destruct (path_exists env roster_csv); simpl;
      [|intros -> [= <- _]; by left].
    destruct (read_csv env receiving_csv) as [r0|]; simpl;
      [|intros -> [= <- _]; by left].
    destruct (coerce_receiving _ r0) as [r|]; simpl;
      [|intros -> [= <- _]; by left].
    destruct (read_csv env roster_csv) as [s0|]; simpl;
      [|intros -> [= <- _]; by left].
    destruct (coerce_roster _ s0) as [s|]; simpl;
      [|intros -> [= <- _]; by left].
    destruct (connect_fault env); [intros -> [= <- _]; by left|].
    intros -> Hrun. right. exists r, s. split; [done|]. split; [done|].
    pose proof (try_block_paths env r s
      (mkWorld (Some (default ∅ db)) ConnOpen (events_connect r s))) as Hp.
    cbn [store conn trace default from_option id] in Hp.
    destruct (to_sql_fault env "receiving" r _) as [[e1 db1]|];
      [rewrite Hp in Hrun; by injection Hrun as -> _|].
    destruct (to_sql_fault env "roster" s _) as [[e2 db2]|];
      [rewrite Hp in Hrun; by injection Hrun as -> _|].
    destruct (first_query_fault env) as [e3|].
    + destruct Hp as [_ [t Ht]]. rewrite Ht in Hrun. by injection Hrun as -> _.
    + destruct Hp as [_ Ht]. rewrite Ht in Hrun. discriminate.
Qed.

Lemma error_line_printed_in_try_block_witness :
  early_fault env_write_fault = None
  ∧ try_fault env_write_fault None receiving_sample roster_sample
    = Some (OperationalError "database is locked")
  ∧ (∃ w t,
       run env_write_fault None = (Raise (OperationalError "database is locked"), w)
       ∧ conn w = ConnClosed
       ∧ trace w = events_connect receiving_sample roster_sample ++ t
                   ++ [EPrint (error_line (OperationalError "database is locked")); EClose])
  ∧ path_exists env_missing_receiving receiving_csv = false
  ∧ (∃ p w,
       path_exists env_missing_receiving p = false
       ∧ run env_missing_receiving None
         = (Raise (FileNotFoundError ("CSV file not found: " +:+ p)), w)
       ∧ ∀ l, EPrint l ∉ trace w).
Proof.
  split; [reflexivity|]. split; [reflexivity|]. split.
  - apply (proj1 (proj2 (proj2 (error_line_printed_in_try_block env_write_fault None)))
             receiving_sample roster_sample); reflexivity.
  - split; [reflexivity|].
    apply (proj1 (proj2 (error_line_printed_in_try_block env_missing_receiving None))).
    left. reflexivity.
Defined.

(** ** What the store holds *)

Lemma plain_column_int col cl z :
  plain_column col = true → cl ∈ s_values col → cl = CInt z → in_int64 z = true.
Proof.
  unfold plain_column. intros Hp Hin ->.
  apply list_elem_of_In in Hin.
  destruct (s_dtype col).
  - rewrite forallb_forall in Hp. by apply (Hp _ Hin).
  - rewrite forallb_forall in Hp. by apply (Hp _ Hin).
  - rewrite forallb_forall in Hp. by specialize (Hp _ Hin).
  - rewrite forallb_forall in Hp. by specialize (Hp _ Hin).
  - apply orb_true_iff in Hp as [Hp|Hp]; rewrite forallb_forall in Hp;
      by specialize (Hp _ Hin).
Qed.

Lemma sql_of_cell_stored_as cl :
  (∀ z, cl = CInt z → in_int64 z = true) → stored_as cl (sql_of_cell cl).
Proof.
  intros H. destruct cl as [z|[sg|sg| |sg m e]|b|s]; simpl; constructor. by apply H.
Qed.

(** The table made from a frame holds that frame. *)
Lemma table_holds_frame df : holds_frame (table_of_frame df) df.
Proof.
  split; [|split; [|split]].
  - unfold column_names. simpl. by rewrite <- list_fmap_compose.
  - simpl. by rewrite length_fmap, length_seq.
  - simpl. apply Forall_fmap, Forall_forall. intros i _. simpl.
    unfold frame_row. by rewrite length_fmap.
  - intros i c col cl Hi Hcol Hplain Hcl.
    rewrite stored_cell_of_frame by done. rewrite Hcol. simpl. rewrite Hcl. simpl.
    eexists. split; [done|]. apply sql_of_cell_stored_as.
    intros z. eapply plain_column_int; [done|]. by eapply list_elem_of_lookup_2.
Qed.



Lemma infer_sql_type_text vs :
  forallb (λ c, is_str c || isna c) vs = true → infer_sql_type vs = TEXT.
Proof.
  intros Hall. unfold infer_sql_type.
  destruct (filter (λ c, isna c = false) vs) as [|x l] eqn:Hf; [done|].
  assert (x ∈ filter (λ c, isna c = false) vs) as Hx by (rewrite Hf; by left).
  apply list_elem_of_filter in Hx as [Hna Hx].
  rewrite forallb_forall in Hall. apply list_elem_of_In in Hx.
  specialize (Hall _ Hx). rewrite Hna, orb_false_r in Hall.
  destruct x; try discriminate. done.
Qed.

Lemma infer_sql_type_bool vs :
  forallb (λ c, is_bool c || isna c) vs = true → existsb is_bool vs = true →
  infer_sql_type vs = INTEGER.
Proof.
  intros Hall Hex. unfold infer_sql_type.
  apply existsb_exists in Hex as (b & Hb & Hisb).
  assert (b ∈ filter (λ c, isna c = false) vs) as Hbin.
  { apply list_elem_of_filter. split; [by destruct b | by apply list_elem_of_In]. }
  destruct (filter (λ c, isna c = false) vs) as [|x l] eqn:Hf; [by apply elem_of_nil in Hbin|].
  assert (forallb is_bool (x :: l) = true) as ->; [|done].
  apply forallb_forall. intros y Hy. apply list_elem_of_In in Hy.
  rewrite <- Hf in Hy. apply list_elem_of_filter in Hy as [Hna Hy].
  rewrite forallb_forall in Hall. apply list_elem_of_In in Hy.
  specialize (Hall _ Hy). by rewrite Hna, orb_false_r in Hall.
Qed.

Lemma sql_type_of_declared col : declared_type col (sql_type_of col).
Proof.
  unfold declared_type, sql_type_of. destruct (s_dtype col); try done.
  split; [apply infer_sql_type_text | apply infer_sql_type_bool].
Qed.

(** X9: the stored column types follow the casts.  In a run that ends
    normally the stored receiving table declares #, GP, NO, YDS, TD, Long
    and PlayerID as INTEGER and the stored roster table declares id and
    number as INTEGER; every other column has the type [to_sql] derives
    from the column as it was read: REAL for [float64], INTEGER for the
    integer and boolean dtypes, and for an [object] column TEXT when it
    holds only strings and INTEGER when it holds only booleans, missing
    entries apart.  The column names are those of the files, in order. *)
Theorem stored_column_types env db w :
  run env db = (Ok (), w) →
  ∃ r0 s0 tr ts,
    read_csv env receiving_csv = Ok r0
    ∧ read_csv env roster_csv = Ok s0
    ∧ default ∅ (store w) !! "receiving" = Some tr
    ∧ default ∅ (store w) !! "roster" = Some ts
    ∧ (t_schema tr).*1 = column_names r0
    ∧ (t_schema ts).*1 = column_names s0
    ∧ (∀ c, c ∈ receiving_int_columns → assoc c (t_schema tr) = Some INTEGER)
    ∧ (∀ c, c ∈ roster_int_columns → assoc c (t_schema ts) = Some INTEGER)
    ∧ (∀ c col, c ∉ receiving_int_columns → assoc c (columns r0) = Some col →
         ∃ ty, assoc c (t_schema tr) = Some ty ∧ declared_type col ty)
    ∧ (∀ c col, c ∉ roster_int_columns → assoc c (columns s0) = Some col →
         ∃ ty, assoc c (t_schema ts) = Some ty ∧ declared_type col ty).
Proof.
  intros Hrun. apply run_Ok_inv in Hrun as (r & s & Hl & Hst & _).
  apply load_frames_Ok in Hl as (r0 & s0 & Hr0 & Hr & Hs0 & Hs).
  rewrite coerce_receiving_loop in Hr. rewrite coerce_roster_loop in Hs.
  apply cast_columns_Ok in Hr as (Hnr & _ & _ & Hor & Hir & _).
  apply cast_columns_Ok in Hs as (Hns & _ & _ & Hos & His & _).
  exists r0, s0, (table_of_frame r), (table_of_frame s). rewrite Hst.
  cbn [default from_option id].
  split; [done|]. split; [done|].
  split; [apply stored_lookup_receiving|]. split; [apply stored_lookup_roster|].
  assert (∀ df, (t_schema (table_of_frame df)).*1 = column_names df) as Hnames.
  { intros df. unfold column_names. simpl. by rewrite <- list_fmap_compose. }
  split; [by rewrite Hnames|]. split; [by rewrite Hnames|].
  split; [|split; [|split]].
  - intros c Hc. rewrite table_schema_lookup.
    destruct (Hir c Hc) as (col & Hcol & [Hd _]). rewrite Hcol. simpl.
    unfold sql_type_of. by rewrite Hd.
  - intros c Hc. rewrite table_schema_lookup.
    destruct (His c Hc) as (col & Hcol & [Hd _]). rewrite Hcol. simpl.
    unfold sql_type_of. by rewrite Hd.
  - intros c col Hc Hcol. rewrite table_schema_lookup, (Hor c Hc), Hcol. simpl.
    eexists. split; [done|]. apply sql_type_of_declared.
  - intros c col Hc Hcol. rewrite table_schema_lookup, (Hos c Hc), Hcol. simpl.
    eexists. split; [done|]. apply sql_type_of_declared.
Qed.

Lemma stored_column_types_witness :
  ∃ w, run sample_env None = (Ok (), w)
  ∧ ∃ r0 s0 tr ts,
    read_csv sample_env receiving_csv = Ok r0
    ∧ read_csv sample_env roster_csv = Ok s0
    ∧ default ∅ (store w) !! "receiving" = Some tr
    ∧ default ∅ (store w) !! "roster" = Some ts
    ∧ (t_schema tr).*1 = column_names r0
    ∧ (t_schema ts).*1 = column_names s0
    ∧ (∀ c, c ∈ receiving_int_columns → assoc c (t_schema tr) = Some INTEGER)
    ∧ (∀ c, c ∈ roster_int_columns → assoc c (t_schema ts) = Some INTEGER)
    ∧ (∀ c col, c ∉ receiving_int_columns → assoc c (columns r0) = Some col →
         ∃ ty, assoc c (t_schema tr) = Some ty ∧ declared_type col ty)
    ∧ (∀ c col, c ∉ roster_int_columns → assoc c (columns s0) = Some col →
         ∃ ty, assoc c (t_schema ts) = Some ty ∧ declared_type col ty).
Proof.
  eexists. split; [vm_compute; reflexivity|].
  apply (stored_column_types sample_env None).
  vm_compute. reflexivity.
Defined.

(** X12: the other columns are stored as read.  In a run that ends
    normally, the stored value of a plain column outside the cast lists
    is, row by row, the value [read_csv] gave it: text as that text, a
    float as that float (a zero without its sign), a boolean as 0 or 1,
    an integer as that integer; a missing entry is stored as NULL, never
    as a number. *)
Theorem unmapped_cells_stored_as_read env db w :
  run env db = (Ok (), w) →
  ∃ r0 s0 tr ts,
    read_csv env receiving_csv = Ok r0
    ∧ read_csv env roster_csv = Ok s0
    ∧ default ∅ (store w) !! "receiving" = Some tr
    ∧ default ∅ (store w) !! "roster" = Some ts
    ∧ (∀ i c col cl, c ∉ receiving_int_columns → (i < nrows r0)%nat →
         assoc c (columns r0) = Some col → plain_column col = true →
         s_values col !! i = Some cl →
         (∃ v, stored_cell tr i c = Some v ∧ stored_as cl v)
         ∧ (isna cl = true → stored_cell tr i c = Some SqlNull))
    ∧ (∀ i c col cl, c ∉ roster_int_columns → (i < nrows s0)%nat →
         assoc c (columns s0) = Some col → plain_column col = true →
         s_values col !! i = Some cl →
         (∃ v, stored_cell ts i c = Some v ∧ stored_as cl v)
         ∧ (isna cl = true → stored_cell ts i c = Some SqlNull)).
Proof.
  intros Hrun. apply run_Ok_inv in Hrun as (r & s & Hl & Hst & _).
  apply load_frames_Ok in Hl as (r0 & s0 & Hr0 & Hr & Hs0 & Hs).
  rewrite coerce_receiving_loop in Hr. rewrite coerce_roster_loop in Hs.
  apply cast_columns_Ok in Hr as (_ & Hnr & _ & Hor & _).
  apply cast_columns_Ok in Hs as (_ & Hns & _ & Hos & _).
  exists r0, s0, (table_of_frame r), (table_of_frame s). rewrite Hst.
  cbn [default from_option id].
  split; [done|]. split; [done|].
  split; [apply stored_lookup_receiving|]. split; [apply stored_lookup_roster|].
  assert (∀ cl v, isna cl = true → stored_as cl v → v = SqlNull) as Hnull.
  { intros cl v Hna Hv. destruct Hv; try discriminate. done. }
  assert (∀ df df' i c col cl,
            nrows df' = nrows df → assoc c (columns df') = assoc c (columns df) →
            (i < nrows df)%nat → assoc c (columns df) = Some col →
            plain_column col = true → s_values col !! i = Some cl →
            (∃ v, stored_cell (table_of_frame df') i c = Some v ∧ stored_as cl v)
            ∧ (isna cl = true → stored_cell (table_of_frame df') i c = Some SqlNull))
    as Hcell.
  { intros df df' i c col cl Hn Hsame Hi Hcol Hplain Hcl.
    destruct (table_holds_frame df') as (_ & _ & _ & Hcells).
    destruct (Hcells i c col cl) as (v & Hv & Has); [lia | congruence | done | done |].
    split; [by exists v|]. intros Hna. by rewrite Hv, (Hnull cl v Hna Has). }
  split; intros i c col cl Hc Hi Hcol Hplain Hcl.
  - by apply (Hcell r0 r i c col cl Hnr (Hor c Hc)).
  - by apply (Hcell s0 s i c col cl Hns (Hos c Hc)).
Qed.

Lemma unmapped_cells_stored_as_read_witness :
  ∃ w, run sample_env None = (Ok (), w)
  ∧ stored_cell (default (mkTable [] []) (default ∅ (store w) !! "roster")) 1 "weight"
    = Some SqlNull
  ∧ stored_cell (default (mkTable [] []) (default ∅ (store w) !! "roster")) 0 "height"
    = Some (SqlText "6-4")
  ∧ ∃ r0 s0 tr ts,
    read_csv sample_env receiving_csv = Ok r0
    ∧ read_csv sample_env roster_csv = Ok s0
    ∧ default ∅ (store w) !! "receiving" = Some tr
    ∧ default ∅ (store w) !! "roster" = Some ts
    ∧ (∀ i c col cl, c ∉ receiving_int_columns → (i < nrows r0)%nat →
         assoc c (columns r0) = Some col → plain_column col = true →
         s_values col !! i = Some cl →
         (∃ v, stored_cell tr i c = Some v ∧ stored_as cl v)
         ∧ (isna cl = true → stored_cell tr i c = Some SqlNull))
    ∧ (∀ i c col cl, c ∉ roster_int_columns → (i < nrows s0)%nat →
         assoc c (columns s0) = Some col → plain_column col = true →
         s_values col !! i = Some cl →
         (∃ v, stored_cell ts i c = Some v ∧ stored_as cl v)
         ∧ (isna cl = true → stored_cell ts i c = Some SqlNull)).
Proof.
  eexists. split; [vm_compute; reflexivity|]. split; [vm_compute; reflexivity|].
  split; [vm_compute; reflexivity|].
  apply (unmapped_cells_stored_as_read sample_env None).
  vm_compute. reflexivity.
Defined.

(** ** Edge values *)

Example negative_zero_is_stored_unsigned :
  sql_of_cell (CFloat (S754_zero true)) = SqlReal (S754_zero false).
Proof. reflexivity. Qed.

Example object_column_of_booleans_is_INTEGER :
  sql_type_of (mkSeries ObjectT [CBool true; missing]) = INTEGER
  ∧ sql_type_of (mkSeries ObjectT [CStr "6-4"; missing]) = TEXT
  ∧ sql_type_of (mkSeries ObjectT [missing]) = TEXT.
Proof. repeat split. Qed.

Example string_beyond_int64_overflows :
  cast_cell (mkCastEnv (λ _, Ok (2 ^ 63)) (λ _, Ok 0)) (CStr "9223372036854775808")
  = Raise (OverflowError "Python int too large to convert to C long").
Proof. reflexivity. Qed.

Example append_keeps_former_rows :
  (λ r, match r with
        | Ok db => length <$> (t_rows <$> (db !! "receiving"))
        | Raise _ => None
        end)
    (write_frame IfAppend "receiving" roster_sample old_db) = Some 5%nat
  ∧ (λ r, match r with
          | Ok db => length <$> (t_rows <$> (db !! "receiving"))
          | Raise _ => None
          end)
      (write_frame IfReplace "receiving" roster_sample old_db) = Some 2%nat.
Proof. split; vm_compute; reflexivity. Qed.
